(** * ExtractDat / RecoverDat: decoder for Thermo Element ICP-MS dat files

    A shallow embedding of the two Python programs [ExtractDat.py] (scans are
    found through the index of the file header) and [RecoverDat.py] (scans
    are found by searching the file for scan headers), and the properties of
    their decoders.

    Conventions of the embedding.
    - The bytes of the file on disk are a [list byte]; an open Python file
      object is its cursor, a number of type [N]; [dat.fd] is an [option N],
      [None] when the file is closed.
    - Code that reads the file runs in the monad [io]: it takes the cursor
      and returns an outcome (a value or a raised exception) with the new
      cursor.
    - Unsigned 32-bit words and offsets are numbers of type [N]; decoded
      measurements are signed and have type [Z].
    - Python floats are not computed: a float is kept as the exact quotient
      of the integers it is computed from ([pyfloat]).
    - [Debug] only prints and is left out. *)

From Stdlib.Strings Require Import String Byte.
From Stdlib Require Import List NArith ZArith Lia Bool.
From Stdlib Require Import Ascii DecimalString DecimalPos DecimalZ.
Import ListNotations.
Open Scope N_scope.

(** ** Exceptions and outcomes *)

Inductive exn : Type :=
| EOS                              (* DATException: end of scan *)
| NotOpen                          (* DATException: dat file is not open *)
| UnknownKey (code : N)            (* UnknownKey(str(key)) *)
| UnknownDataType (code : N)       (* UnknownDataType(str(dataType)) *)
| InvalidScanHeader                (* RecoverDat only *)
| IndexError                       (* builtin *)
| StructError                      (* struct.error: wrong number of bytes to unpack *)
| ZeroDivisionError                (* builtin: float division by zero *)
| PyException (msg : string).      (* Exception(msg) *)

(** [OutOfFuel] is not a Python outcome: it is what a loop of the model
    answers when its fuel is used up.  No handler catches it. *)
Inductive outcome (A : Type) : Type :=
| Ok (a : A)
| Raise (e : exn)
| OutOfFuel.
Arguments Ok {A} a.
Arguments Raise {A} e.
Arguments OutOfFuel {A}.

(** The result of code that has no loop. *)
Inductive result (A : Type) : Type :=
| Val (a : A)
| Exc (e : exn).
Arguments Val {A} a.
Arguments Exc {A} e.

Definition io (A : Type) : Type := N -> outcome A * N.

Definition ret {A} (a : A) : io A := fun cur => (Ok a, cur).
Definition raise {A} (e : exn) : io A := fun cur => (Raise e, cur).
Definition out_of_fuel {A} : io A := fun cur => (OutOfFuel, cur).
Definition bind {A B} (c : io A) (k : A -> io B) : io B :=
  fun cur =>
    match c cur with
    | (Ok a, cur') => k a cur'
    | (Raise e, cur') => (Raise e, cur')
    | (OutOfFuel, cur') => (OutOfFuel, cur')
    end.
Definition catch {A} (c : io A) (h : exn -> io A) : io A :=
  fun cur =>
    match c cur with
    | (Raise e, cur') => h e cur'
    | r => r
    end.
Definition lift {A} (r : result A) : io A :=
  fun cur =>
    match r with
    | Val a => (Ok a, cur)
    | Exc e => (Raise e, cur)
    end.

Declare Scope io_scope.
Delimit Scope io_scope with io.
Notation "x <- c ;; k" := (bind c (fun x => k))
  (at level 61, c at next level, right associativity) : io_scope.
Notation "c ;;; k" := (bind c (fun _ => k))
  (at level 61, right associativity) : io_scope.
Open Scope io_scope.

(** ** Bytes, words and the file cursor *)

Definition byte_val (b : byte) : N := Byte.to_N b.

(** One "<I" field: four bytes, least significant first. *)
Definition le32 (b0 b1 b2 b3 : byte) : N :=
  byte_val b0 + 256 * byte_val b1 + 65536 * byte_val b2 + 16777216 * byte_val b3.

(** The words of a byte string, four bytes each. *)
Fixpoint words_of (bs : list byte) : list N :=
  match bs with
  | b0 :: b1 :: b2 :: b3 :: rest => le32 b0 b1 b2 b3 :: words_of rest
  | _ => []
  end.

(** [struct.unpack("<%dI" % n, bs)]: exactly [4 * n] bytes, else struct.error. *)
Definition unpack (n : N) (bs : list byte) : result (list N) :=
  if N.of_nat (length bs) =? 4 * n then Val (words_of bs)
  else Exc StructError.

(** [struct.unpack("<I", bs)[0]] *)
Definition unpack_I (bs : list byte) : result N :=
  match unpack 1 bs with
  | Val (w :: _) => Val w
  | Val [] => Exc IndexError
  | Exc e => Exc e
  end.

Definition len (contents : list byte) : N := N.of_nat (length contents).

(** The bytes a [read(n)] at cursor [cur] returns: at most [n], fewer at the
    end of the file, none beyond it. *)
Definition slice (contents : list byte) (cur n : N) : list byte :=
  if len contents <=? cur then []
  else firstn (N.to_nat (N.min n (len contents - cur))) (skipn (N.to_nat cur) contents).

Section FileObject.
Variable contents : list byte.

Definition tell : io N := fun cur => (Ok cur, cur).
Definition seek (offset : N) : io unit := fun _ => (Ok tt, offset).
Definition read (n : N) : io (list byte) :=
  fun cur =>
    let bs := slice contents cur n in
    (Ok bs, cur + N.of_nat (length bs)).
End FileObject.

Definition _CheckOpen (fd : option N) : result N :=
  match fd with
  | None => Exc NotOpen
  | Some cur => Val cur
  end.

(** ** Constants shared by the two programs *)

Definition HDR_NUM_FIELDS : nat := 85.
Definition HDR_INDEX_OFFSET : nat := 33.
Definition HDR_INDEX_LEN : nat := 39.
Definition HDR_TIMESTAMP : nat := 40.

Definition SCAN_NUMBER : nat := 9.
Definition SCAN_DELTA : nat := 7.
Definition SCAN_ACF : nat := 12.
Definition SCAN_TIME : nat := 19.
Definition SCAN_EDAC : nat := 31.

Definition KEY_EOS : N := 0xF.
Definition KEY_EOM : N := 0x8.
Definition KEY_BSCAN : N := 0xC.
Definition KEY_B : N := 0xB.
Definition KEY_VOLT : N := 0x4.
Definition KEY_TIME : N := 0x3.
Definition KEY_MASS : N := 0x2.
Definition KEY_DATA : N := 0x1.

Definition DATA_ANALOG : N := 0x0.
Definition DATA_PULSE : N := 0x1.
Definition DATA_FARADAY : N := 0x8.

(** Number of words and of bytes of a scan header: [self.headerSize = 47 * 4]. *)
Definition headerWords : N := 47.
Definition headerSize : N := 47 * 4.

(** ** Scan and Mass records *)

(** The float [num / den], kept exact. *)
Inductive pyfloat : Type := Quot (num den : N).

Record Scan : Type := mkScan {
  number : N;
  delta : N;
  acf : N;
  time : N;
  fcf : N;
  edac : N;
  _vals : list N;
  scan_offset : N
}.

(** [measurements] is a [defaultdict(list)] that the decoder fills under the
    three keys 'analog', 'pulse' and 'faraday': one list per key.  [size] is
    assigned when the end-of-mass word is read; before that the attribute
    does not exist, and no Mass leaves [Mass.__init__] without it. *)
Record Mass : Type := mkMass {
  mass_offset : N;
  magnetMass : option pyfloat;
  acceleratingVoltage : option pyfloat;
  channelTime : option N;
  duration : option N;
  analog : list Z;
  pulse : list Z;
  faraday : list Z;
  size : N
}.

(** The object as [Mass.__init__] has it before its loop. *)
Definition new_Mass (offset : N) : Mass :=
  mkMass offset None None None None [] [] [] 0.

(** The two attributes that [_SetAttr] is called with. *)
Inductive attr : Type := attr_duration | attr_channelTime.

Definition attr_name (a : attr) : string :=
  match a with
  | attr_duration => "duration"
  | attr_channelTime => "channelTime"
  end%string.

Definition getattr (self : Mass) (name : attr) : option N :=
  match name with
  | attr_duration => duration self
  | attr_channelTime => channelTime self
  end.

Definition setattr (self : Mass) (name : attr) (value : N) : Mass :=
  match name with
  | attr_duration =>
      mkMass (mass_offset self) (magnetMass self) (acceleratingVoltage self)
             (channelTime self) (Some value)
             (analog self) (pulse self) (faraday self) (size self)
  | attr_channelTime =>
      mkMass (mass_offset self) (magnetMass self) (acceleratingVoltage self)
             (Some value) (duration self)
             (analog self) (pulse self) (faraday self) (size self)
  end.

Definition _SetAttr (self : Mass) (name : attr) (value : N) : result Mass :=
  match getattr self name with
  | Some _ => Exc (PyException (attr_name name ++ " is already set")%string)
  | None => Val (setattr self name value)
  end.

Definition set_acceleratingVoltage (self : Mass) (v : pyfloat) : Mass :=
  mkMass (mass_offset self) (magnetMass self) (Some v)
         (channelTime self) (duration self)
         (analog self) (pulse self) (faraday self) (size self).

Definition set_magnetMass (self : Mass) (v : pyfloat) : Mass :=
  mkMass (mass_offset self) (Some v) (acceleratingVoltage self)
         (channelTime self) (duration self)
         (analog self) (pulse self) (faraday self) (size self).

Definition set_size (self : Mass) (v : N) : Mass :=
  mkMass (mass_offset self) (magnetMass self) (acceleratingVoltage self)
         (channelTime self) (duration self)
         (analog self) (pulse self) (faraday self) v.

Definition append_analog (self : Mass) (v : Z) : Mass :=
  mkMass (mass_offset self) (magnetMass self) (acceleratingVoltage self)
         (channelTime self) (duration self)
         (analog self ++ [v]) (pulse self) (faraday self) (size self).

Definition append_pulse (self : Mass) (v : Z) : Mass :=
  mkMass (mass_offset self) (magnetMass self) (acceleratingVoltage self)
         (channelTime self) (duration self)
         (analog self) (pulse self ++ [v]) (faraday self) (size self).

Definition append_faraday (self : Mass) (v : Z) : Mass :=
  mkMass (mass_offset self) (magnetMass self) (acceleratingVoltage self)
         (channelTime self) (duration self)
         (analog self) (pulse self) (faraday self ++ [v]) (size self).

(** ** The record word decoder: the body of the loop of [Mass.__init__] *)

Definition word_key (tmp : N) : N := N.shiftr (N.land tmp 0xF0000000) 28.
Definition word_value (tmp : N) : N := N.land tmp 0x0FFFFFFF.

Definition data_flag (value : N) : N := N.shiftr (N.land value 0x0F000000) 24.
Definition data_dataType (value : N) : N := N.shiftr (N.land value 0x00F00000) 20.
Definition data_exp (value : N) : N := N.shiftr (N.land value 0x000F0000) 16.
Definition data_magnitude (value : N) : N := N.land value 0x0000FFFF.

(** [value = value << exp; if flag != 0: value = -value] *)
Definition measurement (flag exp value : N) : Z :=
  let value := Z.of_N (N.shiftl value exp) in
  if flag =? 0 then value else (- value)%Z.

(** What one turn of the loop does after the word is unpacked. *)
Inductive step : Type :=
| Continue (self : Mass)       (* next turn of [while True] *)
| Break (self : Mass)          (* [break] *)
| Abort (e : exn).             (* [raise] *)

Definition Mass_item (scan_edac : N) (self : Mass) (tmp : N) : step :=
  let key := word_key tmp in
  let value := word_value tmp in
  if key =? KEY_EOS then Abort EOS
  else if key =? KEY_EOM then
    match _SetAttr self attr_duration value with
    | Val self' => Break self'
    | Exc e => Abort e
    end
  else if key =? KEY_BSCAN then Continue self
  else if key =? KEY_B then Continue self
  else if key =? KEY_VOLT then
    (* scan.edac * 1000.0 / value / 2**18 *)
    if value =? 0 then Abort ZeroDivisionError
    else Continue (set_acceleratingVoltage self (Quot (scan_edac * 1000) (value * 2 ^ 18)))
  else if key =? KEY_TIME then
    match _SetAttr self attr_channelTime value with
    | Val self' => Continue self'
    | Exc e => Abort e
    end
  else if key =? KEY_MASS then
    (* value * 1.0 / 2**18 *)
    Continue (set_magnetMass self (Quot value (2 ^ 18)))
  else if key =? KEY_DATA then
    let flag := data_flag value in
    let dataType := data_dataType value in
    let exp := data_exp value in
    let value := data_magnitude value in
    if dataType =? DATA_ANALOG then Continue (append_analog self (measurement flag exp value))
    else if dataType =? DATA_PULSE then Continue (append_pulse self (measurement flag exp value))
    else if dataType =? DATA_FARADAY then Continue (append_faraday self (measurement flag exp value))
    else Abort (UnknownDataType dataType)
  else Abort (UnknownKey key).

Section MassLoop.
Variable contents : list byte.
Variable scan_edac : N.

(** [while True: tmp = struct.unpack("<I", fd.read(4))[0]; ...] *)
Fixpoint Mass_loop (fuel : nat) (self : Mass) : io Mass :=
  match fuel with
  | O => out_of_fuel
  | S fuel' =>
      bs <- read contents 4 ;;
      tmp <- lift (unpack_I bs) ;;
      match Mass_item scan_edac self tmp with
      | Abort e => raise e
      | Break self' =>
          pos <- tell ;;
          ret (set_size self' (pos - mass_offset self'))
      | Continue self' => Mass_loop fuel' self'
      end
  end.

(** Every turn of the loop reads four bytes or raises: more turns than
    the file has bytes cannot happen. *)
Definition Mass_fuel : nat := S (length contents).
End MassLoop.

(** [vals[i]] on the tuple of a header: the tuple has as many items as the
    format asks for, and the programs only use constant indexes below that. *)
Definition item (vals : list N) (i : nat) : N := nth i vals 0.

(** [t[i]] on a tuple for any Python integer [i]: negative indexes count
    from the end, and an index outside [-len, len) raises IndexError. *)
Definition getitem (t : list N) (i : Z) : option N :=
  let n := Z.of_nat (length t) in
  if (0 <=? i)%Z then nth_error t (Z.to_nat i)
  else if (- n <=? i)%Z then nth_error t (Z.to_nat (n + i))
  else None.

Fixpoint list_eqb (l1 l2 : list N) : bool :=
  match l1, l2 with
  | [], [] => true
  | x :: l1', y :: l2' => (x =? y) && list_eqb l1' l2'
  | _, _ => false
  end.

(** [vals[lo:hi]] for [0 <= lo <= hi]. *)
Definition slice_of (vals : list N) (lo hi : nat) : list N :=
  firstn (hi - lo) (skipn lo vals).

(** The assignments of [Scan.__init__] from the unpacked header:
    [self.number = vals[SCAN_NUMBER]] and so on.  The two programs differ in
    the constant [SCAN_FCF], which is the parameter here. *)
Definition Scan_fields (SCAN_FCF : nat) (vals : list N) (offset : N) : Scan :=
  mkScan (item vals SCAN_NUMBER) (item vals SCAN_DELTA)
         (item vals SCAN_ACF) (item vals SCAN_TIME)
         (item vals SCAN_FCF) (item vals SCAN_EDAC)
         vals offset.

(** ** ExtractDat.py: scans are found through the index *)

Module ExtractDat.

Definition SCAN_FCF : nat := 35.

Section Decoder.
Variable contents : list byte.

(** [Mass.__init__(self, scan, fd, offset)].  [fd] is the file object of
    the scan, which [GetScan] found open. *)
Definition Mass_init (scan : Scan) (offset : N) : io Mass :=
  seek offset ;;;
  Mass_loop contents (edac scan) (Mass_fuel contents) (new_Mass offset).

(** [Scan.__init__(self, dat, offset)] *)
Definition Scan_init (offset : N) : io Scan :=
  seek offset ;;;
  bs <- read contents headerSize ;;
  vals <- lift (unpack headerWords bs) ;;
  ret (Scan_fields SCAN_FCF vals (offset + headerSize)).

(** [Scan.GetMass(self, offset)]: [None] at the end of the scan. *)
Definition GetMass (scan : Scan) (offset : N) : io (option Mass) :=
  catch (mass <- Mass_init scan offset ;; ret (Some mass))
        (fun e => match e with
                  | EOS => ret None
                  | _ => raise e
                  end).

(** [ScanIterator.next]: the state of the iterator is [_offset]; the
    answer [None] is StopIteration. *)
Definition ScanIterator_next (scan : Scan) (_offset : N)
  : io (option (Mass * N)) :=
  mass <- GetMass scan _offset ;;
  match mass with
  | None => ret None
  | Some mass => ret (Some (mass, _offset + size mass))
  end.

(** [for j, mass in enumerate(scan)]: the masses in the order the
    iterator yields them. *)
Fixpoint Scan_masses (fuel : nat) (scan : Scan) (_offset : N)
  : io (list Mass) :=
  match fuel with
  | O => out_of_fuel
  | S fuel' =>
      r <- ScanIterator_next scan _offset ;;
      match r with
      | None => ret []
      | Some (mass, _offset') =>
          masses <- Scan_masses fuel' scan _offset' ;;
          ret (mass :: masses)
      end
  end.
End Decoder.

(** [path] stands for the bytes of the file at that path. *)
Record DatFile : Type := mkDatFile {
  path : list byte;
  fd : option N;
  timestamp : N;
  _indexLen : N;
  _indexOffset : N;
  _hdr_vals : list N;
  _offsets : list N
}.

Definition set_fd (dat : DatFile) (fd' : option N) : DatFile :=
  mkDatFile (path dat) fd' (timestamp dat) (_indexLen dat) (_indexOffset dat)
            (_hdr_vals dat) (_offsets dat).

(** The body of [with open(self.path, 'rb') as fd] in [DatFile.__init__]. *)
Definition read_header (contents : list byte) : io DatFile :=
  seek 0x10 ;;;
  tmp <- read contents (N.of_nat HDR_NUM_FIELDS * 4) ;;
  vals <- lift (unpack (N.of_nat HDR_NUM_FIELDS) tmp) ;;
  let indexLen := item vals HDR_INDEX_LEN in
  let indexOffset := item vals HDR_INDEX_OFFSET in
  seek (indexOffset + 4) ;;;
  bytes <- read contents (indexLen * 4) ;;
  offsets <- lift (unpack indexLen bytes) ;;
  ret (mkDatFile contents None (item vals HDR_TIMESTAMP) indexLen indexOffset
                 vals offsets).

Definition DatFile_init (contents : list byte) : outcome DatFile :=
  fst (read_header contents 0).

Definition Open (dat : DatFile) : DatFile := set_fd dat (Some 0).
Definition Close (dat : DatFile) : DatFile := set_fd dat None.

Definition NumScans (dat : DatFile) : nat := length (_offsets dat).

(** Runs code on the open file of [dat] and stores the cursor back. *)
Definition on_fd {A} (dat : DatFile) (cur : N) (c : io A)
  : outcome A * DatFile :=
  let (r, cur') := c cur in (r, set_fd dat (Some cur')).

(** [DatFile.GetScan(self, index)] *)
Definition GetScan (dat : DatFile) (index : Z) : outcome Scan * DatFile :=
  match _CheckOpen (fd dat) with
  | Exc e => (Raise e, dat)
  | Val cur =>
      if (Z.of_nat (length (_offsets dat)) <=? index)%Z
      then (Raise IndexError, dat)
      else
        match getitem (_offsets dat) index with
        | None => (Raise IndexError, dat)
        | Some offset => on_fd dat cur (Scan_init (path dat) offset)
        end
  end.

(** [DatFileIterator.__init__]: [self._i = 0] *)
Definition DatFileIterator_init : Z := 0%Z.

(** [DatFileIterator.next]: the state is [_i]; [None] is StopIteration. *)
Definition DatFileIterator_next (dat : DatFile) (_i : Z)
  : outcome (option (Scan * Z)) * DatFile :=
  if (Z.of_nat (NumScans dat) <=? _i)%Z then (Ok None, dat)
  else
    match GetScan dat _i with
    | (Ok scan, dat') => (Ok (Some (scan, (_i + 1)%Z)), dat')
    | (Raise e, dat') => (Raise e, dat')
    | (OutOfFuel, dat') => (OutOfFuel, dat')
    end.

(** What the body of a [for scan in dat] loop does to the file between
    two calls of [next]: it reads masses, which moves the cursor. *)
Definition consumer : Type := Scan -> N -> N.

(** [for scan in dat: consume(scan)]: the scans in the order they are
    yielded. *)
Fixpoint DatFile_scans (fuel : nat) (consume : consumer) (dat : DatFile)
  (_i : Z) : outcome (list Scan) * DatFile :=
  match fuel with
  | O => (OutOfFuel, dat)
  | S fuel' =>
      match DatFileIterator_next dat _i with
      | (Ok None, dat') => (Ok [], dat')
      | (Ok (Some (scan, _i')), dat') =>
          let dat'' := set_fd dat' (option_map (consume scan) (fd dat')) in
          match DatFile_scans fuel' consume dat'' _i' with
          | (Ok scans, dat3) => (Ok (scan :: scans), dat3)
          | r => r
          end
      | (Raise e, dat') => (Raise e, dat')
      | (OutOfFuel, dat') => (OutOfFuel, dat')
      end
  end.

(** The loop of [main] over the scans of one dat file, without the text
    it prints: a row is a scan with the masses decoded from it.

    [[
    for i, scan in enumerate(dat):
        try:
            for j, mass in enumerate(scan): ...
        except UnknownDataType, e: continue
        except UnknownKey, e: continue
        print row
    ]] *)
Definition row : Type := (Scan * list Mass)%type.

Fixpoint main_scans (fuel : nat) (dat : DatFile) (_i : Z)
  : outcome (list row) * DatFile :=
  match fuel with
  | O => (OutOfFuel, dat)
  | S fuel' =>
      match DatFileIterator_next dat _i with
      | (Ok None, dat') => (Ok [], dat')
      | (Ok (Some (scan, _i')), dat') =>
          match fd dat' with
          | None => (Raise NotOpen, dat')
          | Some cur =>
              match on_fd dat' cur
                      (Scan_masses (path dat') (Mass_fuel (path dat')) scan
                                   (scan_offset scan)) with
              | (Ok masses, dat'') =>
                  match main_scans fuel' dat'' _i' with
                  | (Ok rows, dat3) => (Ok ((scan, masses) :: rows), dat3)
                  | r => r
                  end
              | (Raise (UnknownDataType _), dat'') => main_scans fuel' dat'' _i'
              | (Raise (UnknownKey _), dat'') => main_scans fuel' dat'' _i'
              | (Raise e, dat'') => (Raise e, dat'')
              | (OutOfFuel, dat'') => (OutOfFuel, dat'')
              end
          end
      | (Raise e, dat') => (Raise e, dat')
      | (OutOfFuel, dat') => (OutOfFuel, dat')
      end
  end.

(** [dat.Open(); for i, scan in enumerate(dat): ...] *)
Definition main_dat (dat : DatFile) : outcome (list row) * DatFile :=
  main_scans (S (NumScans dat)) (Open dat) DatFileIterator_init.

End ExtractDat.

(** ** RecoverDat.py: scans are found by searching for their headers *)

Module RecoverDat.

Definition SCAN_FCF : nat := 34.

Section Decoder.
Variable contents : list byte.

(** [Mass.__init__(self, scan, fd)]: decodes at the current offset. *)
Definition Mass_init (scan : Scan) : io Mass :=
  offset <- tell ;;
  Mass_loop contents (edac scan) (Mass_fuel contents) (new_Mass offset).

(** [Scan.__init__(self, dat, number)] *)
Definition Scan_init (number : Z) : io Scan :=
  offset <- tell ;;
  bs <- read contents headerSize ;;
  vals <- lift (unpack headerWords bs) ;;
  if negb (list_eqb (slice_of vals 3 6) [0xd; 0xe; 0xf])
  then raise InvalidScanHeader
  else
    let self_number := item vals SCAN_NUMBER in
    if negb (Z.of_N self_number =? number)%Z
    then raise InvalidScanHeader
    else ret (Scan_fields SCAN_FCF vals offset).

(** [Scan.GetMass(self)]: [None] at the end of the scan. *)
Definition GetMass (scan : Scan) : io (option Mass) :=
  catch (mass <- Mass_init scan ;; ret (Some mass))
        (fun e => match e with
                  | EOS => ret None
                  | _ => raise e
                  end).

(** [ScanIterator.next]: [None] is StopIteration. *)
Definition ScanIterator_next (scan : Scan) : io (option Mass) :=
  GetMass scan.

(** The loop of [DatFile.GetScan]:
    [[
    while found is False:
        try:
            offset = self.fd.tell()
            scan = Scan(self, index)
            found = True
        except InvalidScanHeader:
            _Seek(self.fd, offset+1, 0)
        except:
            return None
    return scan
    ]] *)
Fixpoint GetScan_loop (fuel : nat) (index : Z) : io (option Scan) :=
  match fuel with
  | O => out_of_fuel
  | S fuel' =>
      offset <- tell ;;
      catch (scan <- Scan_init index ;; ret (Some scan))
            (fun e => match e with
                      | InvalidScanHeader =>
                          seek (offset + 1) ;;; GetScan_loop fuel' index
                      | _ => ret None
                      end)
  end.

(** A header is refused only after all its bytes were read, and each
    refusal moves the cursor one byte on: the loop cannot take more
    turns than the file has bytes, plus one. *)
Definition GetScan_fuel : nat := S (length contents).
End Decoder.

Record DatFile : Type := mkDatFile {
  path : list byte;
  fd : option N;
  timestamp : N;
  _indexLen : N;
  _indexOffset : N;
  _hdr_vals : list N;
  endOfHeader : N;
  _offsets : list N
}.

Definition set_fd (dat : DatFile) (fd' : option N) : DatFile :=
  mkDatFile (path dat) fd' (timestamp dat) (_indexLen dat) (_indexOffset dat)
            (_hdr_vals dat) (endOfHeader dat) (_offsets dat).

(** The body of [with open(self.path, 'rb') as fd] in [DatFile.__init__]. *)
Definition read_header (contents : list byte) : io DatFile :=
  seek 0x10 ;;;
  tmp <- read contents (N.of_nat HDR_NUM_FIELDS * 4) ;;
  vals <- lift (unpack (N.of_nat HDR_NUM_FIELDS) tmp) ;;
  let indexLen := item vals HDR_INDEX_LEN in
  let indexOffset := item vals HDR_INDEX_OFFSET in
  eoh <- tell ;;
  seek (indexOffset + 4) ;;;
  bytes <- read contents (indexLen * 4) ;;
  offsets <- lift (unpack indexLen bytes) ;;
  ret (mkDatFile contents None (item vals HDR_TIMESTAMP) indexLen indexOffset
                 vals eoh offsets).

Definition DatFile_init (contents : list byte) : outcome DatFile :=
  fst (read_header contents 0).

(** [Open]: the cursor is put after the file header. *)
Definition Open (dat : DatFile) : DatFile := set_fd dat (Some (endOfHeader dat)).
Definition Close (dat : DatFile) : DatFile := set_fd dat None.

Definition on_fd {A} (dat : DatFile) (cur : N) (c : io A)
  : outcome A * DatFile :=
  let (r, cur') := c cur in (r, set_fd dat (Some cur')).

(** [DatFile.GetScan(self, index)] *)
Definition GetScan (dat : DatFile) (index : Z)
  : outcome (option Scan) * DatFile :=
  match _CheckOpen (fd dat) with
  | Exc e => (Raise e, dat)
  | Val cur =>
      on_fd dat cur (GetScan_loop (path dat) (GetScan_fuel (path dat)) index)
  end.

(** [DatFileIterator.__init__]: [self._index = 1] *)
Definition DatFileIterator_init : Z := 1%Z.

(** [DatFileIterator.next]: the state is [_index]; [None] is
    StopIteration. *)
Definition DatFileIterator_next (dat : DatFile) (_index : Z)
  : outcome (option (Scan * Z)) * DatFile :=
  match GetScan dat _index with
  | (Ok None, dat') => (Ok None, dat')
  | (Ok (Some scan), dat') => (Ok (Some (scan, (_index + 1)%Z)), dat')
  | (Raise e, dat') => (Raise e, dat')
  | (OutOfFuel, dat') => (OutOfFuel, dat')
  end.

(** [for j, mass in enumerate(scan)]: the masses in the order the iterator
    yields them, each decoded where the one before left the cursor. *)
Fixpoint Scan_masses (contents : list byte) (fuel : nat) (scan : Scan)
  : io (list Mass) :=
  match fuel with
  | O => out_of_fuel
  | S fuel' =>
      r <- ScanIterator_next contents scan ;;
      match r with
      | None => ret []
      | Some mass =>
          masses <- Scan_masses contents fuel' scan ;;
          ret (mass :: masses)
      end
  end.

(** The loop of [main] over the scans of one dat file, without the text it
    prints, as in ExtractDat: a row is a scan with the masses decoded from
    it; UnknownDataType and UnknownKey are caught and the loop goes on with
    the next scan. *)
Definition row : Type := (Scan * list Mass)%type.

Fixpoint main_scans (fuel : nat) (dat : DatFile) (_index : Z)
  : outcome (list row) * DatFile :=
  match fuel with
  | O => (OutOfFuel, dat)
  | S fuel' =>
      match DatFileIterator_next dat _index with
      | (Ok None, dat') => (Ok [], dat')
      | (Ok (Some (scan, _index')), dat') =>
          match fd dat' with
          | None => (Raise NotOpen, dat')
          | Some cur =>
              match on_fd dat' cur
                      (Scan_masses (path dat') (Mass_fuel (path dat')) scan) with
              | (Ok masses, dat'') =>
                  match main_scans fuel' dat'' _index' with
                  | (Ok rows, dat3) => (Ok ((scan, masses) :: rows), dat3)
                  | r => r
                  end
              | (Raise (UnknownDataType _), dat'') => main_scans fuel' dat'' _index'
              | (Raise (UnknownKey _), dat'') => main_scans fuel' dat'' _index'
              | (Raise e, dat'') => (Raise e, dat'')
              | (OutOfFuel, dat'') => (OutOfFuel, dat'')
              end
          end
      | (Raise e, dat') => (Raise e, dat')
      | (OutOfFuel, dat') => (OutOfFuel, dat')
      end
  end.

(** [dat.Open(); for i, scan in enumerate(dat): ...].  Every scan that is
    found takes the 188 bytes of its header: the loop cannot take more
    turns than the file has bytes, plus one. *)
Definition main_dat (dat : DatFile) : outcome (list row) * DatFile :=
  main_scans (S (length (path dat))) (Open dat) DatFileIterator_init.

End RecoverDat.

(** ** Reading the file by position, for the statements *)

Definition byte_at (contents : list byte) (pos : N) : byte :=
  nth (N.to_nat pos) contents x00.

(** The little-endian 32-bit word whose first byte is at [pos]. *)
Definition word_at (contents : list byte) (pos : N) : N :=
  le32 (byte_at contents pos) (byte_at contents (pos + 1))
       (byte_at contents (pos + 2)) (byte_at contents (pos + 3)).

(** The bytes from the cursor to the end of the file. *)
Definition rest (contents : list byte) (cur : N) : list byte :=
  if len contents <=? cur then [] else skipn (N.to_nat cur) contents.

(** The bound of a decoded measurement. *)
Definition max_measurement : Z := ((2 ^ 16 - 1) * 2 ^ 15)%Z.

Definition bounded (v : Z) : Prop :=
  (Z.abs v <= max_measurement)%Z /\ (- 2 ^ 31 < v < 2 ^ 31)%Z.

Definition measurements_bounded (self : Mass) : Prop :=
  Forall bounded (analog self) /\ Forall bounded (pulse self) /\
  Forall bounded (faraday self).

(** ** Test files *)

Definition byte_of (n : N) : byte :=
  match Byte.of_N (n mod 256) with
  | Some b => b
  | None => x00
  end.

(** [struct.pack("<I", w)] *)
Definition pack_I (w : N) : list byte :=
  [byte_of w; byte_of (w / 256); byte_of (w / 65536); byte_of (w / 16777216)].

Definition pack (ws : list N) : list byte := flat_map pack_I ws.

Definition word (key value : N) : N := key * 2 ^ 28 + value.

Definition data_word (flag dataType exp magnitude : N) : N :=
  word KEY_DATA (flag * 2 ^ 24 + dataType * 2 ^ 20 + exp * 2 ^ 16 + magnitude).

(** A scan header with the words 0xD, 0xE, 0xF at 3, 4, 5, the scan number
    at 9, edac 7, and the index of the word everywhere else. *)
Definition scan_header (number : N) : list N :=
  map (fun i => match i with
                | 3%nat => 0xd
                | 4%nat => 0xe
                | 5%nat => 0xf
                | 9%nat => number
                | 31%nat => 7
                | _ => N.of_nat i
                end) (seq 0 47).

Definition file_header (indexOffset indexLen timestamp : N) : list N :=
  map (fun i => match i with
                | 33%nat => indexOffset
                | 39%nat => indexLen
                | 40%nat => timestamp
                | _ => 0
                end) (seq 0 85).

(** The offsets of scans laid out one after the other from [first]. *)
Fixpoint scan_offsets (first : N) (scans : list (list N)) : list N :=
  match scans with
  | [] => []
  | sc :: scans' => first :: scan_offsets (first + 4 * N.of_nat (length sc)) scans'
  end.

(** A dat file: 16 bytes, the 85 words of the header, the index, the scans. *)
Definition dat_file (scans : list (list N)) : list byte :=
  let n := N.of_nat (length scans) in
  repeat x00 16 ++ pack (file_header 352 n 1000)
    ++ pack (scan_offsets (356 + 4 * n) scans) ++ pack (concat scans).

(** ** Scan headers by position, for the statements *)

(** The 47 words of the header that starts at [pos]. *)
Definition header_vals (contents : list byte) (pos : N) : list N :=
  words_of (slice contents pos headerSize).

(** Word [i] of the header that starts at [pos]. *)
Definition header_word (contents : list byte) (pos : N) (i : nat) : N :=
  word_at contents (pos + 4 * N.of_nat i).

Definition header_fits (contents : list byte) (pos : N) : bool :=
  pos + headerSize <=? len contents.

Definition magic_ok (contents : list byte) (pos : N) : bool :=
  (header_word contents pos 3 =? 0xD) && (header_word contents pos 4 =? 0xE)
  && (header_word contents pos 5 =? 0xF).

Definition number_ok (contents : list byte) (pos : N) (number : Z) : bool :=
  (Z.of_N (header_word contents pos 9) =? number)%Z.

(** A whole header at [pos] that the recovery mode accepts as scan [number]. *)
Definition valid_at (contents : list byte) (pos : N) (number : Z) : bool :=
  header_fits contents pos && magic_ok contents pos && number_ok contents pos number.

(** The scan with the fields of the header at [pos], fcf from word
    [fcf_index], and [offset] as its offset attribute. *)
Definition scan_at (fcf_index : nat) (contents : list byte) (pos offset : N) : Scan :=
  mkScan (header_word contents pos 9) (header_word contents pos 7)
         (header_word contents pos 12) (header_word contents pos 19)
         (header_word contents pos fcf_index) (header_word contents pos 31)
         (header_vals contents pos) offset.

(** The scan that the indexed mode decodes at an offset of the index. *)
Definition indexed_scan (contents : list byte) (offset : N) : Scan :=
  scan_at 35 contents offset (offset + headerSize).


(** ** The test files of the examples *)

(** The DatFile object of a file whose header reads well. *)
Definition the_dat (contents : list byte) : ExtractDat.DatFile :=
  match ExtractDat.DatFile_init contents with
  | Ok dat => dat
  | _ => ExtractDat.mkDatFile contents None 0 0 0 [] []
  end.

Definition the_recover_dat (contents : list byte) : RecoverDat.DatFile :=
  match RecoverDat.DatFile_init contents with
  | Ok dat => dat
  | _ => RecoverDat.mkDatFile contents None 0 0 0 [] 0 []
  end.

(** Two well-formed scans of one mass each. *)
Definition file_two_scans : list byte :=
  dat_file [ scan_header 1 ++ [word KEY_MASS 262144; word KEY_TIME 5;
                               data_word 1 1 2 5; word KEY_EOM 9; word KEY_EOS 0];
             scan_header 2 ++ [word KEY_MASS 3; word KEY_EOM 9; word KEY_EOS 0] ].

(** The first scan has a mass with two channel time words. *)
Definition file_duplicate_time : list byte :=
  dat_file [ scan_header 1 ++ [word KEY_TIME 5; word KEY_TIME 6;
                               word KEY_EOM 9; word KEY_EOS 0];
             scan_header 2 ++ [word KEY_MASS 3; word KEY_EOM 9; word KEY_EOS 0] ].

(** The first scan has a mass with a word of the unknown key 0x5. *)
Definition file_unknown_key : list byte :=
  dat_file [ scan_header 1 ++ [word KEY_TIME 5; word 0x5 6;
                               word KEY_EOM 9; word KEY_EOS 0];
             scan_header 2 ++ [word KEY_MASS 3; word KEY_EOM 9; word KEY_EOS 0] ].


(** A mass stream with two magnet mass and two accelerating voltage words. *)
Definition stream_overwrite : list byte :=
  pack [word KEY_MASS 1; word KEY_MASS 2; word KEY_VOLT 1; word KEY_VOLT 2;
        word KEY_EOM 9].

(** A scan object with edac 7 for decoding a bare mass stream. *)
Definition bare_scan : Scan := mkScan 1 0 0 0 0 7 [] 0.

(** ** The decoder over a list of words, for the statements *)

(** How the run of the decoder over a list of words ends. *)
Inductive run_end : Type :=
| Ended (m : Mass)          (* an end-of-mass word: the mass *)
| Failed (e : exn)          (* a word that raises *)
| Exhausted (self : Mass).  (* no word left *)

(** The run of the decoder over a list of words, with the number of words
    it takes. *)
Fixpoint Mass_run (scan_edac : N) (self : Mass) (ws : list N) : run_end * nat :=
  match ws with
  | [] => (Exhausted self, 0%nat)
  | tmp :: ws' =>
      match Mass_item scan_edac self tmp with
      | Continue self' =>
          let (r, k) := Mass_run scan_edac self' ws' in (r, S k)
      | Break self' => (Ended self', 1%nat)
      | Abort e => (Failed e, 1%nat)
      end
  end.

(** The [n] words of the file from [pos] on. *)
Definition words_from (contents : list byte) (pos : N) (n : nat) : list N :=
  firstn n (words_of (rest contents pos)).

(** A DATA word of the data type [dataType]. *)
Definition is_data (dataType tmp : N) : bool :=
  (word_key tmp =? KEY_DATA) && (data_dataType (word_value tmp) =? dataType).

(** The measurement that a DATA word holds. *)
Definition data_measurement (tmp : N) : Z :=
  measurement (data_flag (word_value tmp)) (data_exp (word_value tmp))
              (data_magnitude (word_value tmp)).

(** The measurements of the DATA words of a data type, in the order of the
    words. *)
Definition stream_measurements (dataType : N) (ws : list N) : list Z :=
  map data_measurement (filter (is_data dataType) ws).

(** The value of the last word with the key [key], or [init]. *)
Definition last_value (key : N) (init : option N) (ws : list N) : option N :=
  fold_left (fun acc tmp => if word_key tmp =? key then Some (word_value tmp) else acc)
            ws init.

(** The floats that the decoder makes of the value of a magnet mass word
    and of an accelerating voltage word. *)
Definition magnet_float (value : N) : pyfloat := Quot value (2 ^ 18).
Definition volt_float (scan_edac value : N) : pyfloat :=
  Quot (scan_edac * 1000) (value * 2 ^ 18).

(** The words of a mass that was decoded from [offset] to [cur'], without
    the end-of-mass word, its last one. *)
Definition mass_words (contents : list byte) (offset cur' : N) : list N :=
  words_from contents offset (N.to_nat ((cur' - offset) / 4) - 1).

Definition is_key (key tmp : N) : bool := word_key tmp =? key.

(** The words with the keys 0xC and 0xB. *)
Definition inert (tmp : N) : bool := is_key KEY_BSCAN tmp || is_key KEY_B tmp.

(** Masses that lie one after the other, from [start] to [stop]. *)
Fixpoint contiguous (start : N) (masses : list Mass) (stop : N) : Prop :=
  match masses with
  | [] => start = stop
  | m :: masses' =>
      mass_offset m = start /\ 4 <= size m /\
      contiguous (start + size m) masses' stop
  end.

(** Word [i] of the file header, which starts at byte 16. *)
Definition hdr_word (contents : list byte) (i : nat) : N :=
  word_at contents (0x10 + 4 * N.of_nat i).

(** The file has the 85 words of the header and the whole index. *)
Definition header_reads (contents : list byte) : bool :=
  (0x10 + 85 * 4 <=? len contents)
  && ((hdr_word contents HDR_INDEX_LEN =? 0)
      || (hdr_word contents HDR_INDEX_OFFSET + 4 + hdr_word contents HDR_INDEX_LEN * 4
          <=? len contents)).

(** Rows of the recovery mode in ascending order: the scan numbers go up
    from [index], the headers lie at ascending positions from [cur] on, at
    least a header apart, and each is a header that the recovery mode
    accepts for the number of its scan. *)
Fixpoint ascending (contents : list byte) (index : Z) (cur : N)
  (rows : list RecoverDat.row) : Prop :=
  match rows with
  | [] => True
  | (scan, _) :: rows' =>
      (index <= Z.of_N (number scan))%Z /\ cur <= scan_offset scan /\
      valid_at contents (scan_offset scan) (Z.of_N (number scan)) = true /\
      ascending contents (Z.of_N (number scan) + 1) (scan_offset scan + headerSize) rows'
  end.

(** The index of a file agrees with what the recovery mode finds from
    [cur] on with the expected scan number [index]: the first header that
    the recovery mode accepts is the one at the first offset of the index,
    the next one, searched from where the masses of that scan leave the
    cursor, is at the second offset, and so on; after the last scan no
    header is accepted.  Every scan whose masses are decoded to the end has
    at least one mass: the loop of [main] in ExtractDat reads [modes], which
    only a mass sets, after the masses of a scan.  Nothing is asked of what
    comes after a scan whose masses end the traversal with an exception. *)
Fixpoint intact (contents : list byte) (index : Z) (cur : N) (offsets : list N) : Prop :=
  match offsets with
  | [] => forall q, cur <= q -> valid_at contents q index = false
  | offset :: offsets' =>
      cur <= offset /\ valid_at contents offset index = true /\
      (forall q, cur <= q < offset -> valid_at contents q index = false) /\
      match RecoverDat.Scan_masses contents (Mass_fuel contents)
              (scan_at 34 contents offset offset) (offset + headerSize) with
      | (Ok masses, cur') => masses <> [] /\ intact contents (index + 1) cur' offsets'
      | (Raise (UnknownKey _), cur') => intact contents (index + 1) cur' offsets'
      | (Raise (UnknownDataType _), cur') => intact contents (index + 1) cur' offsets'
      | _ => True
      end
  end.

(** What the two programs print of a row, but for fcf: the fields of the
    scan and its masses. *)
Definition row_view (r : Scan * list Mass) : N * N * N * N * N * list Mass :=
  let (scan, masses) := r in
  (number scan, delta scan, acf scan, time scan, edac scan, masses).

Definition rows_view (o : outcome (list (Scan * list Mass)))
  : outcome (list (N * N * N * N * N * list Mass)) :=
  match o with
  | Ok rows => Ok (map row_view rows)
  | Raise e => Raise e
  | OutOfFuel => OutOfFuel
  end.

(** ** The text of a measurement in [main] *)

(** [str(x)] of a Python int: its decimal digits, after a minus sign when
    it is negative. *)
Definition str (x : Z) : string := NilZero.string_of_int (Z.to_int x).

(** [s.startswith(p)] *)
Definition startswith (s p : string) : bool := String.prefix p s.

(** [lambda x: str(x) if not str(x).startswith('-') else str(-x)+'*'], the
    text of a measurement in a row. *)
Definition value_text (x : Z) : string :=
  if negb (startswith (str x) "-") then str x else (str (- x) ++ "*")%string.

(** * Properties *)

(** ** Words and bit fields *)

Lemma byte_val_bound (b : byte) : byte_val b < 256.
Proof. unfold byte_val. pose proof (Byte.to_N_bounded b). lia. Qed.


(** A field cut out with a mask and a shift, as the programs write it, is
    the shifted word masked. *)
Lemma mask_then_shift (value mask n : N) :
  N.shiftr (N.land value mask) n = N.land (N.shiftr value n) (N.shiftr mask n).
Proof. apply N.shiftr_land. Qed.

Lemma nibble_bound (a : N) : N.land a 0xF < 16.
Proof.
  change 0xF with (N.ones 4). rewrite N.land_ones.
  apply N.mod_lt. discriminate.
Qed.

Lemma word_key_shift (tmp : N) : tmp < 2 ^ 32 -> word_key tmp = N.shiftr tmp 28.
Proof.
  intros Hlt. unfold word_key. rewrite mask_then_shift.
  change (N.shiftr 0xF0000000 28) with (N.ones 4).
  rewrite N.land_ones, N.shiftr_div_pow2.
  apply N.mod_small.
  apply N.Div0.div_lt_upper_bound.
  change (2 ^ 28 * 2 ^ 4) with (2 ^ 32). exact Hlt.
Qed.

Lemma data_flag_spec (value : N) : data_flag value = N.land (N.shiftr value 24) 0xF.
Proof. unfold data_flag. now rewrite mask_then_shift. Qed.

Lemma data_dataType_spec (value : N) :
  data_dataType value = N.land (N.shiftr value 20) 0xF.
Proof. unfold data_dataType. now rewrite mask_then_shift. Qed.

Lemma data_exp_spec (value : N) : data_exp value = N.land (N.shiftr value 16) 0xF.
Proof. unfold data_exp. now rewrite mask_then_shift. Qed.

Lemma data_exp_bound (value : N) : data_exp value <= 15.
Proof. rewrite data_exp_spec. pose proof (nibble_bound (N.shiftr value 16)). lia. Qed.

Lemma data_magnitude_bound (value : N) : data_magnitude value <= 65535.
Proof.
  unfold data_magnitude. change (N.land value 0x0000FFFF) with (N.land value (N.ones 16)).
  rewrite N.land_ones.
  assert (H : value mod 2 ^ 16 < 2 ^ 16) by (apply N.mod_lt; discriminate).
  change (2 ^ 16) with 65536 in *. lia.
Qed.



(** ** The measurements are bounded *)

Lemma measurement_bounded (flag exp value : N) :
  exp <= 15 -> value <= 65535 -> bounded (measurement flag exp value).
Proof.
  intros Hexp Hval.
  assert (Hsh : N.shiftl value exp <= 65535 * 2 ^ 15).
  { rewrite N.shiftl_mul_pow2.
    apply N.mul_le_mono; [exact Hval |].
    apply N.pow_le_mono_r; [discriminate | exact Hexp]. }
  change (65535 * 2 ^ 15) with 2147450880 in Hsh.
  unfold bounded, max_measurement, measurement.
  change ((2 ^ 16 - 1) * 2 ^ 15)%Z with 2147450880%Z.
  change (2 ^ 31)%Z with 2147483648%Z.
  destruct (flag =? 0); lia.
Qed.

Lemma data_measurement_bounded (value : N) :
  bounded (measurement (data_flag value) (data_exp value) (data_magnitude value)).
Proof.
  apply measurement_bounded; [apply data_exp_bound | apply data_magnitude_bound].
Qed.

Lemma Forall_snoc {A} (P : A -> Prop) (l : list A) (x : A) :
  Forall P l -> P x -> Forall P (l ++ [x]).
Proof. intros Hl Hx. apply Forall_app. split; [exact Hl | now constructor]. Qed.

(** Case analysis along the chain of tests of [Mass_item], and on whether
    the attribute that [_SetAttr] is asked to set is set. *)
Ltac Mass_item_cases :=
  unfold Mass_item, _SetAttr;
  repeat match goal with
         | |- context [if ?c then _ else _] => destruct c
         | |- context [match getattr ?s ?a with _ => _ end] => destruct (getattr s a)
         end.

Create HintDb dat_bounds.
#[local] Hint Resolve Forall_snoc data_measurement_bounded : dat_bounds.

(** One turn of the loop keeps the measurements bounded. *)
Lemma Mass_item_bounded (scan_edac : N) (self : Mass) (tmp : N) :
  measurements_bounded self ->
  match Mass_item scan_edac self tmp with
  | Continue self' | Break self' => measurements_bounded self'
  | Abort _ => True
  end.
Proof.
  intros (Ha & Hp & Hf).
  Mass_item_cases; try exact I;
    unfold measurements_bounded, setattr, set_acceleratingVoltage, set_magnetMass,
      append_analog, append_pulse, append_faraday;
    cbn [analog pulse faraday];
    repeat split; auto with dat_bounds.
Qed.

Lemma Mass_loop_S (contents : list byte) (scan_edac : N) (fuel : nat) (self : Mass) :
  Mass_loop contents scan_edac (S fuel) self =
    (bs <- read contents 4 ;;
     tmp <- lift (unpack_I bs) ;;
     match Mass_item scan_edac self tmp with
     | Abort e => raise e
     | Break self' => pos <- tell ;; ret (set_size self' (pos - mass_offset self'))
     | Continue self' => Mass_loop contents scan_edac fuel self'
     end).
Proof. reflexivity. Qed.

Lemma Mass_loop_bounded (contents : list byte) (scan_edac : N) (fuel : nat) :
  forall (self m : Mass) (cur cur' : N),
    measurements_bounded self ->
    Mass_loop contents scan_edac fuel self cur = (Ok m, cur') ->
    measurements_bounded m.
Proof.
  induction fuel as [| fuel IH]; intros self m cur cur' Hself Hrun.
  - discriminate.
  - rewrite Mass_loop_S in Hrun. unfold bind, read, lift in Hrun.
    destruct (unpack_I (slice contents cur 4)) as [tmp | e]; [| discriminate].
    pose proof (Mass_item_bounded scan_edac self tmp Hself) as Hstep.
    destruct (Mass_item scan_edac self tmp) as [self' | self' | e].
    + eapply IH; eauto.
    + unfold tell, ret in Hrun. injection Hrun as <- _. exact Hstep.
    + discriminate.
Qed.

Lemma new_Mass_bounded (offset : N) : measurements_bounded (new_Mass offset).
Proof. repeat split; constructor. Qed.

(** ** The file object *)

Lemma length_rest (contents : list byte) (cur : N) :
  N.of_nat (length (rest contents cur)) = len contents - cur.
Proof.
  unfold rest, len. destruct (N.leb_spec (N.of_nat (length contents)) cur).
  - simpl. lia.
  - rewrite length_skipn. lia.
Qed.

Lemma slice_rest (contents : list byte) (cur n : N) :
  slice contents cur n = firstn (N.to_nat n) (rest contents cur).
Proof.
  unfold slice, rest. destruct (N.leb_spec (len contents) cur) as [Hle | Hlt].
  - now rewrite firstn_nil.
  - destruct (N.le_gt_cases n (len contents - cur)) as [Hn | Hn].
    + now rewrite N.min_l.
    + rewrite N.min_r by lia.
      assert (Hlen : length (skipn (N.to_nat cur) contents) = N.to_nat (len contents - cur)).
      { rewrite length_skipn. unfold len. lia. }
      rewrite <- Hlen, firstn_all.
      symmetry. apply firstn_all2. lia.
Qed.

Lemma length_slice (contents : list byte) (cur n : N) :
  N.of_nat (length (slice contents cur n)) = N.min n (len contents - cur).
Proof.
  rewrite slice_rest, length_firstn.
  pose proof (length_rest contents cur). lia.
Qed.

Lemma rest_add (contents : list byte) (cur k : N) :
  rest contents (cur + k) = skipn (N.to_nat k) (rest contents cur).
Proof.
  unfold rest, len.
  destruct (N.leb_spec (N.of_nat (length contents)) cur) as [Hle | Hlt].
  - destruct (N.leb_spec (N.of_nat (length contents)) (cur + k)); [| lia].
    now rewrite skipn_nil.
  - rewrite skipn_skipn.
    destruct (N.leb_spec (N.of_nat (length contents)) (cur + k)) as [Hle' | Hlt'].
    + symmetry. apply skipn_all2. lia.
    + f_equal. lia.
Qed.

(** A read of four bytes where the file has them. *)
Lemma read_word (contents : list byte) (cur : N) (b0 b1 b2 b3 : byte) (tl : list byte) :
  rest contents cur = b0 :: b1 :: b2 :: b3 :: tl ->
  read contents 4 cur = (Ok [b0; b1; b2; b3], cur + 4) /\
  rest contents (cur + 4) = tl.
Proof.
  intros Hrest. split.
  - unfold read. rewrite slice_rest, Hrest. reflexivity.
  - rewrite rest_add, Hrest. reflexivity.
Qed.

(** A read of four bytes where the file has fewer: what is left comes back,
    and it does not unpack. *)
Lemma read_short (contents : list byte) (cur : N) :
  (length (rest contents cur) < 4)%nat ->
  read contents 4 cur = (Ok (rest contents cur), cur + N.of_nat (length (rest contents cur))) /\
  unpack_I (rest contents cur) = Exc StructError.
Proof.
  intros Hshort. split.
  - unfold read. rewrite slice_rest.
    rewrite firstn_all2 by (change (N.to_nat 4) with 4%nat; lia). reflexivity.
  - unfold unpack_I, unpack.
    destruct (N.eqb_spec (N.of_nat (length (rest contents cur))) (4 * 1)); [lia | reflexivity].
Qed.

Lemma unpack_I_word (b0 b1 b2 b3 : byte) :
  unpack_I [b0; b1; b2; b3] = Val (le32 b0 b1 b2 b3).
Proof. reflexivity. Qed.

(** The loop on a complete word, and at the end of the file. *)
Lemma Mass_loop_word (contents : list byte) (scan_edac : N) (fuel : nat)
  (self : Mass) (cur : N) (b0 b1 b2 b3 : byte) (tl : list byte) :
  rest contents cur = b0 :: b1 :: b2 :: b3 :: tl ->
  Mass_loop contents scan_edac (S fuel) self cur =
    match Mass_item scan_edac self (le32 b0 b1 b2 b3) with
    | Abort e => (Raise e, cur + 4)
    | Break self' => (Ok (set_size self' (cur + 4 - mass_offset self')), cur + 4)
    | Continue self' => Mass_loop contents scan_edac fuel self' (cur + 4)
    end.
Proof.
  intros Hrest. rewrite Mass_loop_S. unfold bind.
  destruct (read_word _ _ _ _ _ _ _ Hrest) as [-> _].
  unfold lift. rewrite unpack_I_word.
  destruct (Mass_item scan_edac self (le32 b0 b1 b2 b3)); reflexivity.
Qed.

Lemma Mass_loop_eof (contents : list byte) (scan_edac : N) (fuel : nat)
  (self : Mass) (cur : N) :
  (length (rest contents cur) < 4)%nat ->
  Mass_loop contents scan_edac (S fuel) self cur =
    (Raise StructError, cur + N.of_nat (length (rest contents cur))).
Proof.
  intros Hshort. rewrite Mass_loop_S. unfold bind.
  destruct (read_short _ _ Hshort) as [-> Hun].
  unfold lift. now rewrite Hun.
Qed.

(** The bytes left are four or more, or fewer. *)
Lemma rest_cases (contents : list byte) (cur : N) :
  (exists b0 b1 b2 b3 tl, rest contents cur = b0 :: b1 :: b2 :: b3 :: tl) \/
  (length (rest contents cur) < 4)%nat.
Proof.
  destruct (rest contents cur) as [| b0 [| b1 [| b2 [| b3 tl]]]]; simpl;
    try (right; lia).
  left. now exists b0, b1, b2, b3, tl.
Qed.

(** ** Decoding a mass terminates *)

Lemma Mass_loop_total (contents : list byte) (scan_edac : N) (fuel : nat) :
  forall (self : Mass) (cur : N),
    (length (rest contents cur) < 4 * fuel)%nat ->
    fst (Mass_loop contents scan_edac fuel self cur) <> OutOfFuel.
Proof.
  induction fuel as [| fuel IH]; intros self cur Hfuel; [lia |].
  destruct (rest_cases contents cur) as [(b0 & b1 & b2 & b3 & tl & Hrest) | Hshort].
  - rewrite (Mass_loop_word _ _ _ _ _ _ _ _ _ _ Hrest).
    destruct (Mass_item scan_edac self (le32 b0 b1 b2 b3)); try discriminate.
    apply IH.
    destruct (read_word _ _ _ _ _ _ _ Hrest) as [_ ->].
    rewrite Hrest in Hfuel. simpl in Hfuel. lia.
  - rewrite Mass_loop_eof by exact Hshort. discriminate.
Qed.


Lemma Mass_fuel_enough (contents : list byte) (cur : N) :
  (length (rest contents cur) < 4 * Mass_fuel contents)%nat.
Proof.
  pose proof (length_rest contents cur) as H. unfold len, Mass_fuel in *. lia.
Qed.

(** ** Scan headers *)

Lemma length_words_of (n : nat) :
  forall bs : list byte, length bs = (4 * n)%nat -> length (words_of bs) = n.
Proof.
  induction n as [| n IH]; intros bs Hlen.
  - destruct bs; [reflexivity | discriminate].
  - destruct bs as [| b0 [| b1 [| b2 [| b3 tl]]]]; simpl in Hlen; try lia.
    simpl. f_equal. apply IH. lia.
Qed.

Lemma nth_words_of (i : nat) :
  forall bs : list byte,
    (4 * i + 4 <= length bs)%nat ->
    nth i (words_of bs) 0 =
      le32 (nth (4 * i) bs x00) (nth (4 * i + 1) bs x00)
           (nth (4 * i + 2) bs x00) (nth (4 * i + 3) bs x00).
Proof.
  induction i as [| i IH]; intros bs Hlen;
    destruct bs as [| b0 [| b1 [| b2 [| b3 tl]]]]; simpl in Hlen; try lia.
  - reflexivity.
  - replace (4 * S i)%nat with (S (S (S (S (4 * i))))) by lia.
    cbn [words_of nth Nat.add]. apply IH. lia.
Qed.

Lemma nth_slice (contents : list byte) (cur n : N) (j : nat) :
  cur + n <= len contents -> (j < N.to_nat n)%nat ->
  nth j (slice contents cur n) x00 = byte_at contents (cur + N.of_nat j).
Proof.
  intros Hfit Hj. unfold slice, byte_at.
  destruct (N.leb_spec (len contents) cur); [lia |].
  rewrite N.min_l by lia.
  rewrite nth_firstn.
  destruct (Nat.ltb_spec j (N.to_nat n)); [| lia].
  rewrite nth_skipn. f_equal. lia.
Qed.

Lemma length_header (contents : list byte) (pos : N) :
  pos + headerSize <= len contents ->
  length (slice contents pos headerSize) = 188%nat.
Proof.
  intros Hfit. pose proof (length_slice contents pos headerSize) as H.
  unfold headerSize in *. rewrite N.min_l in H by lia. lia.
Qed.

(** The words that [unpack] gives for a whole header are the words of the
    file at the positions of the header. *)
Lemma item_header_vals (contents : list byte) (pos : N) (i : nat) :
  pos + headerSize <= len contents -> (i < 47)%nat ->
  item (header_vals contents pos) i = header_word contents pos i.
Proof.
  intros Hfit Hi. unfold item, header_vals, header_word, word_at.
  pose proof (length_header contents pos Hfit) as Hlen.
  rewrite nth_words_of by lia.
  rewrite !nth_slice by (try assumption; unfold headerSize; lia).
  f_equal; apply f_equal; lia.
Qed.

Lemma length_header_vals (contents : list byte) (pos : N) :
  pos + headerSize <= len contents -> length (header_vals contents pos) = 47%nat.
Proof.
  intros Hfit. apply length_words_of. now rewrite length_header.
Qed.

Lemma unpack_header (contents : list byte) (pos : N) :
  unpack headerWords (slice contents pos headerSize) =
    if header_fits contents pos then Val (header_vals contents pos)
    else Exc StructError.
Proof.
  unfold unpack, header_fits. rewrite length_slice.
  unfold headerWords, headerSize.
  destruct (N.leb_spec (pos + 47 * 4) (len contents)).
  - rewrite N.min_l by lia. reflexivity.
  - destruct (N.eqb_spec (N.min (47 * 4) (len contents - pos)) (4 * 47)); [lia | reflexivity].
Qed.

Lemma read_header_cursor (contents : list byte) (pos : N) :
  read contents headerSize pos =
    (Ok (slice contents pos headerSize), pos + N.min headerSize (len contents - pos)).
Proof. unfold read. now rewrite length_slice. Qed.

Lemma slice_of_3_6 (vals : list N) :
  (6 <= length vals)%nat ->
  slice_of vals 3 6 = [item vals 3; item vals 4; item vals 5].
Proof.
  intros Hlen.
  destruct vals as [| v0 [| v1 [| v2 [| v3 [| v4 [| v5 tl]]]]]]; simpl in Hlen; try lia.
  reflexivity.
Qed.

Lemma magic_check (contents : list byte) (pos : N) :
  pos + headerSize <= len contents ->
  list_eqb (slice_of (header_vals contents pos) 3 6) [0xd; 0xe; 0xf] = magic_ok contents pos.
Proof.
  intros Hfit.
  rewrite slice_of_3_6 by (rewrite length_header_vals by assumption; lia).
  rewrite !item_header_vals by (try assumption; lia).
  unfold magic_ok. cbn [list_eqb]. rewrite andb_true_r, andb_assoc. reflexivity.
Qed.

Lemma Scan_fields_at (fcf_index : nat) (contents : list byte) (pos offset : N) :
  pos + headerSize <= len contents -> (fcf_index < 47)%nat ->
  Scan_fields fcf_index (header_vals contents pos) offset = scan_at fcf_index contents pos offset.
Proof.
  intros Hfit Hfcf. unfold Scan_fields, scan_at.
  unfold SCAN_NUMBER, SCAN_DELTA, SCAN_ACF, SCAN_TIME, SCAN_EDAC.
  rewrite !item_header_vals by (try assumption; lia). reflexivity.
Qed.

(** What the recovery mode does with the header at the cursor. *)
Lemma Recover_Scan_init_spec (contents : list byte) (number : Z) (cur : N) :
  RecoverDat.Scan_init contents number cur =
    if header_fits contents cur then
      if magic_ok contents cur && number_ok contents cur number
      then (Ok (scan_at 34 contents cur cur), cur + headerSize)
      else (Raise InvalidScanHeader, cur + headerSize)
    else (Raise StructError, cur + (len contents - cur)).
Proof.
  unfold RecoverDat.Scan_init, bind, tell.
  rewrite read_header_cursor. unfold lift. rewrite unpack_header.
  unfold header_fits.
  destruct (N.leb_spec (cur + headerSize) (len contents)) as [Hfit | Hshort].
  - rewrite N.min_l by (unfold headerSize in *; lia).
    rewrite magic_check by assumption.
    unfold SCAN_NUMBER. rewrite item_header_vals by (try assumption; lia).
    fold (number_ok contents cur number).
    destruct (magic_ok contents cur); [| reflexivity].
    destruct (number_ok contents cur number); [| reflexivity].
    cbn [negb andb]. unfold ret.
    rewrite Scan_fields_at by (try assumption; unfold RecoverDat.SCAN_FCF; lia).
    reflexivity.
  - rewrite N.min_r by (unfold headerSize in *; lia). reflexivity.
Qed.

(** What the indexed mode does with the header at [offset]. *)
Lemma Extract_Scan_init_spec (contents : list byte) (offset cur : N) :
  ExtractDat.Scan_init contents offset cur =
    if header_fits contents offset
    then (Ok (scan_at 35 contents offset (offset + headerSize)), offset + headerSize)
    else (Raise StructError, offset + (len contents - offset)).
Proof.
  unfold ExtractDat.Scan_init, bind, seek.
  rewrite read_header_cursor. unfold lift. rewrite unpack_header.
  unfold header_fits.
  destruct (N.leb_spec (offset + headerSize) (len contents)) as [Hfit | Hshort].
  - rewrite N.min_l by (unfold headerSize in *; lia). unfold ret.
    rewrite Scan_fields_at by (try assumption; unfold ExtractDat.SCAN_FCF; lia).
    reflexivity.
  - rewrite N.min_r by (unfold headerSize in *; lia). reflexivity.
Qed.

(** ** Recovery mode: the header check *)

Lemma magic_ok_iff (contents : list byte) (pos : N) :
  magic_ok contents pos = true <->
  (header_word contents pos 3, header_word contents pos 4, header_word contents pos 5)
    = (0xD, 0xE, 0xF).
Proof.
  unfold magic_ok. rewrite !andb_true_iff, !N.eqb_eq. split.
  - intros [[-> ->] ->]. reflexivity.
  - intros H. injection H as -> -> ->. auto.
Qed.

Lemma number_ok_iff (contents : list byte) (pos : N) (number : Z) :
  number_ok contents pos number = true <-> Z.of_N (header_word contents pos 9) = number.
Proof. unfold number_ok. apply Z.eqb_eq. Qed.

(** C1. In recovery mode, constructing a Scan where the file has a whole
    header at the cursor reads the 47 words (188 bytes) of that header and
    nothing more, and raises InvalidScanHeader if and only if the words 3,
    4, 5 of the header are not (0xD, 0xE, 0xF) or word 9, the number,
    is not the expected sequence number. *)
Theorem recovery_header_validation (contents : list byte) (number : Z) (cur : N)
  (Hfit : cur + headerSize <= len contents) :
  snd (RecoverDat.Scan_init contents number cur) = cur + 188 /\
  (fst (RecoverDat.Scan_init contents number cur) = Raise InvalidScanHeader <->
   (header_word contents cur 3, header_word contents cur 4, header_word contents cur 5)
     <> (0xD, 0xE, 0xF)
   \/ Z.of_N (header_word contents cur 9) <> number).
Proof.
  rewrite Recover_Scan_init_spec. unfold header_fits.
  destruct (N.leb_spec (cur + headerSize) (len contents)) as [_ | Hlt]; [| lia].
  pose proof (magic_ok_iff contents cur) as Hm.
  pose proof (number_ok_iff contents cur number) as Hn.
  destruct (magic_ok contents cur); destruct (number_ok contents cur number);
    cbn [andb fst snd]; (split; [reflexivity |]).
  - split; [discriminate |].
    intros [H | H]; exfalso; apply H; [now apply Hm | now apply Hn].
  - split; [| reflexivity]. intros _. right. intros H. apply Hn in H. discriminate.
  - split; [| reflexivity]. intros _. left. intros H. apply Hm in H. discriminate.
  - split; [| reflexivity]. intros _. left. intros H. apply Hm in H. discriminate.
Qed.

(** Where the file has less than a whole header at the cursor, the read
    gives what is left and unpacking it raises struct.error. *)
Lemma recovery_header_short (contents : list byte) (number : Z) (cur : N) :
  len contents < cur + headerSize ->
  RecoverDat.Scan_init contents number cur = (Raise StructError, cur + (len contents - cur)).
Proof.
  intros Hshort. rewrite Recover_Scan_init_spec. unfold header_fits.
  destruct (N.leb_spec (cur + headerSize) (len contents)); [lia | reflexivity].
Qed.

(** ** The scan header fields *)


(** ** Recovery mode: the search for the next scan *)

Lemma valid_at_fits (contents : list byte) (pos : N) (index : Z) :
  valid_at contents pos index = true -> pos + headerSize <= len contents.
Proof.
  unfold valid_at, header_fits. rewrite !andb_true_iff.
  intros [[H _] _]. now apply N.leb_le.
Qed.

(** One turn of the loop of [GetScan]. *)
Lemma GetScan_loop_attempt (contents : list byte) (fuel : nat) (index : Z) (cur : N) :
  RecoverDat.GetScan_loop contents (S fuel) index cur =
    match RecoverDat.Scan_init contents index cur with
    | (Ok scan, cur') => (Ok (Some scan), cur')
    | (Raise InvalidScanHeader, _) => RecoverDat.GetScan_loop contents fuel index (cur + 1)
    | (Raise _, cur') => (Ok None, cur')
    | (OutOfFuel, cur') => (OutOfFuel, cur')
    end.
Proof.
  cbn [RecoverDat.GetScan_loop]. unfold bind, catch, tell.
  destruct (RecoverDat.Scan_init contents index cur) as [[scan | e |] cur'];
    try reflexivity.
  destruct e; reflexivity.
Qed.

Lemma GetScan_loop_step (contents : list byte) (fuel : nat) (index : Z) (cur : N) :
  RecoverDat.GetScan_loop contents (S fuel) index cur =
    if header_fits contents cur then
      if magic_ok contents cur && number_ok contents cur index
      then (Ok (Some (scan_at 34 contents cur cur)), cur + headerSize)
      else RecoverDat.GetScan_loop contents fuel index (cur + 1)
    else (Ok None, cur + (len contents - cur)).
Proof.
  rewrite GetScan_loop_attempt, Recover_Scan_init_spec.
  destruct (header_fits contents cur); [| reflexivity].
  destruct (magic_ok contents cur && number_ok contents cur index); reflexivity.
Qed.

(** The loop stops at the first position with a header that it accepts. *)
Lemma GetScan_loop_found (contents : list byte) (index : Z) (d : nat) :
  forall (fuel : nat) (cur : N),
    (d < fuel)%nat ->
    valid_at contents (cur + N.of_nat d) index = true ->
    (forall r, cur <= r < cur + N.of_nat d -> valid_at contents r index = false) ->
    RecoverDat.GetScan_loop contents fuel index cur =
      (Ok (Some (scan_at 34 contents (cur + N.of_nat d) (cur + N.of_nat d))),
       cur + N.of_nat d + headerSize).
Proof.
  induction d as [| d IH]; intros fuel cur Hfuel Hvalid Hfirst;
    (destruct fuel as [| fuel]; [lia |]); rewrite GetScan_loop_step.
  - replace (cur + N.of_nat 0) with cur in * by lia.
    unfold valid_at in Hvalid. apply andb_true_iff in Hvalid as [Hv Hnum].
    apply andb_true_iff in Hv as [Hfit Hmagic].
    now rewrite Hfit, Hmagic, Hnum.
  - pose proof (valid_at_fits _ _ _ Hvalid) as Hfit.
    assert (Hcur : valid_at contents cur index = false) by (apply Hfirst; lia).
    assert (Hfits : header_fits contents cur = true).
    { unfold header_fits. apply N.leb_le. lia. }
    unfold valid_at in Hcur. rewrite Hfits in Hcur. cbn [andb] in Hcur.
    rewrite Hfits, Hcur.
    replace (cur + N.of_nat (S d)) with (cur + 1 + N.of_nat d) in * by lia.
    apply IH; [lia | exact Hvalid |].
    intros r Hr. apply Hfirst. lia.
Qed.

(** Without such a position the loop runs to the end of the file and
    answers [None]. *)
Lemma GetScan_loop_none (contents : list byte) (index : Z) (fuel : nat) :
  forall cur : N,
    (N.to_nat (len contents - cur) < fuel)%nat ->
    (forall r, cur <= r -> valid_at contents r index = false) ->
    RecoverDat.GetScan_loop contents fuel index cur = (Ok None, N.max cur (len contents)).
Proof.
  induction fuel as [| fuel IH]; intros cur Hfuel Hnone; [lia |].
  rewrite GetScan_loop_step.
  assert (Hcur : valid_at contents cur index = false) by (apply Hnone; lia).
  unfold valid_at in Hcur. unfold header_fits in *.
  destruct (N.leb_spec (cur + headerSize) (len contents)) as [Hfit | Hshort].
  - cbn [andb] in Hcur. rewrite Hcur.
    unfold headerSize in Hfit.
    rewrite IH.
    + f_equal. lia.
    + lia.
    + intros r Hr. apply Hnone. lia.
  - f_equal. lia.
Qed.

Lemma GetScan_loop_total (contents : list byte) (index : Z) (fuel : nat) :
  forall cur : N,
    (N.to_nat (len contents - cur) < fuel)%nat ->
    fst (RecoverDat.GetScan_loop contents fuel index cur) <> OutOfFuel.
Proof.
  induction fuel as [| fuel IH]; intros cur Hfuel; [lia |].
  rewrite GetScan_loop_step. unfold header_fits.
  destruct (N.leb_spec (cur + headerSize) (len contents)) as [Hfit | Hshort];
    [| discriminate].
  destruct (magic_ok contents cur && number_ok contents cur index); [discriminate |].
  apply IH. unfold headerSize in Hfit. lia.
Qed.

Lemma GetScan_fuel_enough (contents : list byte) (cur : N) :
  (N.to_nat (len contents - cur) < RecoverDat.GetScan_fuel contents)%nat.
Proof. unfold RecoverDat.GetScan_fuel, len. lia. Qed.

(** C2. The recovery driver starts with the expected scan number 1.  Each
    attempt to read a header starts from the recorded cursor: on
    InvalidScanHeader the search goes on one byte after the recorded
    position, on any other failure [GetScan] answers [None], and on success
    it answers the scan.  As a whole, [next] yields the scan of the first
    position from the cursor on that holds a whole header with the magic
    words and the expected number, and adds one to the expected number; when
    there is no such position it ends the iteration without an error. *)
Theorem recovery_traversal (dat : RecoverDat.DatFile) (cur : N) (index : Z)
  (Hopen : RecoverDat.fd dat = Some cur) :
  RecoverDat.DatFileIterator_init = 1%Z /\
  (forall fuel pos,
      RecoverDat.GetScan_loop (RecoverDat.path dat) (S fuel) index pos =
        match RecoverDat.Scan_init (RecoverDat.path dat) index pos with
        | (Ok scan, cur') => (Ok (Some scan), cur')
        | (Raise InvalidScanHeader, _) =>
            RecoverDat.GetScan_loop (RecoverDat.path dat) fuel index (pos + 1)
        | (Raise _, cur') => (Ok None, cur')
        | (OutOfFuel, cur') => (OutOfFuel, cur')
        end) /\
  (forall pos,
      cur <= pos ->
      valid_at (RecoverDat.path dat) pos index = true ->
      (forall r, cur <= r < pos -> valid_at (RecoverDat.path dat) r index = false) ->
      RecoverDat.DatFileIterator_next dat index =
        (Ok (Some (scan_at 34 (RecoverDat.path dat) pos pos, (index + 1)%Z)),
         RecoverDat.set_fd dat (Some (pos + 188)))) /\
  ((forall r, cur <= r -> valid_at (RecoverDat.path dat) r index = false) ->
   RecoverDat.DatFileIterator_next dat index =
     (Ok None, RecoverDat.set_fd dat (Some (N.max cur (len (RecoverDat.path dat)))))).
Proof.
  split; [reflexivity |]. split; [| split].
  - intros fuel pos. apply GetScan_loop_attempt.
  - intros pos Hle Hvalid Hfirst.
    unfold RecoverDat.DatFileIterator_next, RecoverDat.GetScan, RecoverDat.on_fd.
    rewrite Hopen. cbn [_CheckOpen].
    pose proof (valid_at_fits _ _ _ Hvalid) as Hfit.
    assert (Hfuel : (N.to_nat (pos - cur) < RecoverDat.GetScan_fuel (RecoverDat.path dat))%nat).
    { unfold RecoverDat.GetScan_fuel, len, headerSize in *. lia. }
    replace pos with (cur + N.of_nat (N.to_nat (pos - cur))) in Hvalid, Hfirst by lia.
    rewrite (GetScan_loop_found _ _ _ _ _ Hfuel Hvalid Hfirst).
    replace (cur + N.of_nat (N.to_nat (pos - cur))) with pos by lia.
    reflexivity.
  - intros Hnone.
    unfold RecoverDat.DatFileIterator_next, RecoverDat.GetScan, RecoverDat.on_fd.
    rewrite Hopen. cbn [_CheckOpen].
    rewrite GetScan_loop_none by (try assumption; apply GetScan_fuel_enough).
    reflexivity.
Qed.

(** ** Indexed mode: [GetScan] and the iteration over the index *)

Lemma getitem_nonneg (t : list N) (i : Z) :
  (0 <= i)%Z -> getitem t i = nth_error t (Z.to_nat i).
Proof.
  intros Hi. unfold getitem. destruct (Z.leb_spec 0 i); [reflexivity | lia].
Qed.

Lemma getitem_negative (t : list N) (i : Z) :
  (- Z.of_nat (length t) <= i < 0)%Z ->
  getitem t i = nth_error t (Z.to_nat (Z.of_nat (length t) + i)).
Proof.
  intros Hi. unfold getitem.
  destruct (Z.leb_spec 0 i); [lia |].
  destruct (Z.leb_spec (- Z.of_nat (length t)) i); [reflexivity | lia].
Qed.

Lemma Extract_set_fd_twice (dat : ExtractDat.DatFile) (fd1 fd2 : option N) :
  ExtractDat.set_fd (ExtractDat.set_fd dat fd1) fd2 = ExtractDat.set_fd dat fd2.
Proof. reflexivity. Qed.

Lemma Extract_set_fd_same (dat : ExtractDat.DatFile) :
  ExtractDat.set_fd dat (ExtractDat.fd dat) = dat.
Proof. now destruct dat. Qed.

(** [GetScan] with an index that the check lets through and the tuple has. *)
Lemma Extract_GetScan_at (dat : ExtractDat.DatFile) (cur : N) (index : Z) (offset : N) :
  ExtractDat.fd dat = Some cur ->
  (index < Z.of_nat (ExtractDat.NumScans dat))%Z ->
  getitem (ExtractDat._offsets dat) index = Some offset ->
  ExtractDat.GetScan dat index =
    ExtractDat.on_fd dat cur (ExtractDat.Scan_init (ExtractDat.path dat) offset).
Proof.
  intros Hopen Hidx Hitem. unfold ExtractDat.GetScan.
  rewrite Hopen. cbn [_CheckOpen]. unfold ExtractDat.NumScans in Hidx.
  destruct (Z.leb_spec (Z.of_nat (length (ExtractDat._offsets dat))) index); [lia |].
  now rewrite Hitem.
Qed.

Lemma Extract_on_fd_Scan_init (dat : ExtractDat.DatFile) (cur offset : N) :
  header_fits (ExtractDat.path dat) offset = true ->
  ExtractDat.on_fd dat cur (ExtractDat.Scan_init (ExtractDat.path dat) offset) =
    (Ok (scan_at 35 (ExtractDat.path dat) offset (offset + headerSize)),
     ExtractDat.set_fd dat (Some (offset + headerSize))).
Proof.
  intros Hfit. unfold ExtractDat.on_fd.
  now rewrite Extract_Scan_init_spec, Hfit.
Qed.



(** The iteration from entry [length pre] of the index on. *)
Lemma DatFile_scans_from (consume : ExtractDat.consumer) (dat : ExtractDat.DatFile)
  (post : list N) :
  forall (pre : list N) (fuel : nat) (cur : N),
    ExtractDat._offsets dat = pre ++ post ->
    (length post < fuel)%nat ->
    Forall (fun offset => header_fits (ExtractDat.path dat) offset = true) post ->
    exists cur',
      ExtractDat.DatFile_scans fuel consume (ExtractDat.set_fd dat (Some cur))
                               (Z.of_nat (length pre))
      = (Ok (map (indexed_scan (ExtractDat.path dat)) post),
         ExtractDat.set_fd dat (Some cur')).
Proof.
  induction post as [| offset post IH]; intros pre fuel cur Hoff Hfuel Hfit;
    (destruct fuel as [| fuel]; [simpl in Hfuel; lia |]);
    cbn [ExtractDat.DatFile_scans]; unfold ExtractDat.DatFileIterator_next;
    unfold ExtractDat.NumScans at 1; cbn [ExtractDat.set_fd ExtractDat._offsets];
    rewrite Hoff, length_app.
  - destruct (Z.leb_spec (Z.of_nat (length pre + length (@nil N))) (Z.of_nat (length pre)));
      [| simpl in *; lia].
    now exists cur.
  - destruct (Z.leb_spec (Z.of_nat (length pre + length (offset :: post)))
                         (Z.of_nat (length pre))); [simpl in *; lia |].
    inversion Hfit as [| ? ? Hfit1 Hfit2]; subst.
    rewrite (Extract_GetScan_at _ cur _ offset); cycle 1.
    + reflexivity.
    + unfold ExtractDat.NumScans. cbn [ExtractDat.set_fd ExtractDat._offsets].
      rewrite Hoff, length_app. simpl. lia.
    + cbn [ExtractDat.set_fd ExtractDat._offsets]. rewrite Hoff.
      rewrite getitem_nonneg by lia. rewrite Nat2Z.id.
      rewrite nth_error_app2 by lia. now rewrite Nat.sub_diag.
    + rewrite Extract_on_fd_Scan_init by exact Hfit1.
      rewrite !Extract_set_fd_twice. cbn [ExtractDat.fd ExtractDat.set_fd option_map].
      fold (ExtractDat.set_fd dat
              (Some (consume (scan_at 35 (ExtractDat.path dat) offset (offset + headerSize))
                             (offset + headerSize)))).
      replace (Z.of_nat (length pre) + 1)%Z with (Z.of_nat (length (pre ++ [offset])))
        by (rewrite length_app; simpl; lia).
      destruct (IH (pre ++ [offset]) fuel
                  (consume (scan_at 35 (ExtractDat.path dat) offset (offset + headerSize))
                           (offset + headerSize)))
        as [cur' Hrec].
      * now rewrite <- app_assoc.
      * simpl in Hfuel. lia.
      * exact Hfit2.
      * change (ExtractDat.path (ExtractDat.set_fd dat (Some cur)))
          with (ExtractDat.path dat).
        rewrite Hrec. now exists cur'.
Qed.

(** The index that [DatFile.__init__] reads has [indexLen] entries. *)
Lemma unpack_length (n : N) (bs : list byte) (ws : list N) :
  unpack n bs = Val ws -> length ws = N.to_nat n.
Proof.
  unfold unpack.
  destruct (N.eqb_spec (N.of_nat (length bs)) (4 * n)) as [Hlen |]; [| discriminate].
  intros H. injection H as <-. apply length_words_of. lia.
Qed.

Lemma DatFile_init_NumScans (contents : list byte) (dat : ExtractDat.DatFile) :
  ExtractDat.DatFile_init contents = Ok dat ->
  ExtractDat.NumScans dat = N.to_nat (ExtractDat._indexLen dat) /\
  ExtractDat.path dat = contents.
Proof.
  unfold ExtractDat.DatFile_init, ExtractDat.read_header, bind, seek, read, lift, ret.
  destruct (unpack (N.of_nat HDR_NUM_FIELDS) _) as [vals | e]; [| discriminate].
  destruct (unpack (item vals HDR_INDEX_LEN) _) as [offsets | e] eqn:Hoff; [| discriminate].
  cbn [fst]. intros H. injection H as <-.
  split; [| reflexivity].
  unfold ExtractDat.NumScans. cbn [ExtractDat._offsets ExtractDat._indexLen].
  exact (unpack_length _ _ _ Hoff).
Qed.

(** C6. The index that the file header gives has indexLength entries.  In
    indexed mode [GetScan(i)] with [0 <= i < indexLength] seeks to
    [offsets[i]] and decodes a scan there; where the file holds a whole
    header at that offset the scan is decoded whatever the words 3, 4, 5 of
    the header are.  [GetScan(i)] with [i >= indexLength] raises IndexError.
    Iterating over a file with N index entries, each the offset of a whole
    header, yields N scans, the scans at the offsets in the order of the
    index. *)
Theorem indexed_traversal (dat : ExtractDat.DatFile) (cur : N)
  (Hopen : ExtractDat.fd dat = Some cur) :
  (forall contents dat0,
      ExtractDat.DatFile_init contents = Ok dat0 ->
      ExtractDat.NumScans dat0 = N.to_nat (ExtractDat._indexLen dat0)) /\
  (forall i : Z,
      (0 <= i < Z.of_nat (ExtractDat.NumScans dat))%Z ->
      exists offset,
        nth_error (ExtractDat._offsets dat) (Z.to_nat i) = Some offset /\
        ExtractDat.GetScan dat i =
          ExtractDat.on_fd dat cur (ExtractDat.Scan_init (ExtractDat.path dat) offset) /\
        (header_fits (ExtractDat.path dat) offset = true ->
         ExtractDat.GetScan dat i =
           (Ok (indexed_scan (ExtractDat.path dat) offset),
            ExtractDat.set_fd dat (Some (offset + 188))))) /\
  (forall i : Z,
      (Z.of_nat (ExtractDat.NumScans dat) <= i)%Z ->
      ExtractDat.GetScan dat i = (Raise IndexError, dat)) /\
  (Forall (fun offset => header_fits (ExtractDat.path dat) offset = true)
          (ExtractDat._offsets dat) ->
   forall consume : ExtractDat.consumer,
   exists scans dat',
     ExtractDat.DatFile_scans (S (ExtractDat.NumScans dat)) consume dat
                              ExtractDat.DatFileIterator_init
       = (Ok scans, dat') /\
     scans = map (indexed_scan (ExtractDat.path dat)) (ExtractDat._offsets dat) /\
     length scans = ExtractDat.NumScans dat).
Proof.
  split; [| split; [| split]].
  - intros contents dat0 Hinit. now apply DatFile_init_NumScans in Hinit.
  - intros i Hi.
    destruct (nth_error (ExtractDat._offsets dat) (Z.to_nat i)) as [offset |] eqn:Hnth.
    + exists offset. split; [reflexivity |].
      assert (Hget : ExtractDat.GetScan dat i =
                ExtractDat.on_fd dat cur (ExtractDat.Scan_init (ExtractDat.path dat) offset)).
      { apply Extract_GetScan_at; [exact Hopen | lia |].
        rewrite getitem_nonneg by lia. exact Hnth. }
      split.
      * exact Hget.
      * intros Hfit. rewrite Hget. now apply Extract_on_fd_Scan_init.
    + apply nth_error_None in Hnth. unfold ExtractDat.NumScans in Hi. lia.
  - intros i Hi. unfold ExtractDat.GetScan. rewrite Hopen. cbn [_CheckOpen].
    unfold ExtractDat.NumScans in Hi.
    destruct (Z.leb_spec (Z.of_nat (length (ExtractDat._offsets dat))) i); [reflexivity | lia].
  - intros Hfit consume.
    destruct (DatFile_scans_from consume dat (ExtractDat._offsets dat) []
                (S (ExtractDat.NumScans dat)) cur eq_refl) as [cur' Hrun].
    + unfold ExtractDat.NumScans. lia.
    + exact Hfit.
    + rewrite <- Hopen, Extract_set_fd_same in Hrun.
      eexists _, _. split; [exact Hrun |]. split; [reflexivity |].
      now rewrite length_map.
Qed.

(** C9. In indexed mode the check of [GetScan] only looks at the upper
    end: with a negative index [i], [-NumScans() <= i < 0], it does not
    raise IndexError; it decodes the scan at [offsets[NumScans() + i]] and,
    where the file holds a whole header there, returns it. *)
Theorem indexed_negative_index (dat : ExtractDat.DatFile) (cur : N) (i : Z)
  (Hopen : ExtractDat.fd dat = Some cur)
  (Hneg : (- Z.of_nat (ExtractDat.NumScans dat) <= i < 0)%Z) :
  exists offset,
    nth_error (ExtractDat._offsets dat)
              (Z.to_nat (Z.of_nat (ExtractDat.NumScans dat) + i)) = Some offset /\
    ExtractDat.GetScan dat i =
      ExtractDat.on_fd dat cur (ExtractDat.Scan_init (ExtractDat.path dat) offset) /\
    fst (ExtractDat.GetScan dat i) <> Raise IndexError /\
    (header_fits (ExtractDat.path dat) offset = true ->
     ExtractDat.GetScan dat i =
       (Ok (indexed_scan (ExtractDat.path dat) offset),
        ExtractDat.set_fd dat (Some (offset + 188)))).
Proof.
  unfold ExtractDat.NumScans in *.
  destruct (nth_error (ExtractDat._offsets dat)
              (Z.to_nat (Z.of_nat (length (ExtractDat._offsets dat)) + i)))
    as [offset |] eqn:Hnth.
  - exists offset. split; [reflexivity |].
    assert (Hget : ExtractDat.GetScan dat i =
              ExtractDat.on_fd dat cur (ExtractDat.Scan_init (ExtractDat.path dat) offset)).
    { apply Extract_GetScan_at; [exact Hopen | unfold ExtractDat.NumScans; lia |].
      rewrite getitem_negative by lia. exact Hnth. }
    split; [exact Hget |]. split.
    + rewrite Hget. unfold ExtractDat.on_fd. rewrite Extract_Scan_init_spec.
      destruct (header_fits (ExtractDat.path dat) offset); discriminate.
    + intros Hfit. rewrite Hget. now apply Extract_on_fd_Scan_init.
  - apply nth_error_None in Hnth. lia.
Qed.

(** ** The record word decoder *)


(** ** The bound of the measurements *)

(** C10. Every measurement that the decoder appends to the pulse, analog
    or faraday sequence of a Mass has an absolute value of at most
    (2^16 - 1) * 2^15, the magnitude having 16 bits and the exponent 4, and
    so lies strictly inside the signed 32-bit range: one turn of the loop
    keeps the three sequences within the bound, and so are the sequences of
    every decoded Mass. *)
Theorem measurements_in_range (contents : list byte) (scan : Scan)
  (offset cur cur' : N) (m : Mass)
  (Hdecoded : ExtractDat.Mass_init contents scan offset cur = (Ok m, cur') \/
              RecoverDat.Mass_init contents scan cur = (Ok m, cur')) :
  (forall (self self' : Mass) (tmp : N),
      measurements_bounded self ->
      Mass_item (edac scan) self tmp = Continue self' ->
      measurements_bounded self') /\
  (forall v : Z,
      In v (pulse m) \/ In v (analog m) \/ In v (faraday m) ->
      (Z.abs v <= (2 ^ 16 - 1) * 2 ^ 15)%Z /\ (- 2 ^ 31 < v < 2 ^ 31)%Z).
Proof.
  split.
  - intros self self' tmp Hself Hitem.
    pose proof (Mass_item_bounded (edac scan) self tmp Hself) as Hstep.
    now rewrite Hitem in Hstep.
  - assert (Hm : measurements_bounded m).
    { destruct Hdecoded as [Hrun | Hrun].
      - unfold ExtractDat.Mass_init, bind, seek in Hrun.
        eapply Mass_loop_bounded; [apply new_Mass_bounded | exact Hrun].
      - unfold RecoverDat.Mass_init, bind, tell in Hrun.
        eapply Mass_loop_bounded; [apply new_Mass_bounded | exact Hrun]. }
    destruct Hm as (Ha & Hp & Hf).
    intros v [Hin | [Hin | Hin]];
      [ eapply Forall_forall in Hp | eapply Forall_forall in Ha
        | eapply Forall_forall in Hf ]; eauto.
Qed.

(** ** Set-once fields *)

Lemma _SetAttr_set (self : Mass) (name : attr) (value : N) :
  getattr self name <> None ->
  _SetAttr self name value = Exc (PyException (attr_name name ++ " is already set")).
Proof.
  unfold _SetAttr. destruct (getattr self name); [reflexivity | congruence].
Qed.

Lemma _SetAttr_unset (self : Mass) (name : attr) (value : N) :
  getattr self name = None ->
  _SetAttr self name value = Val (setattr self name value).
Proof. unfold _SetAttr. now intros ->. Qed.

(** C4, as the code has it.  Of the four scalar fields only channelTime
    and duration are set at most once: a word that would set one of the two
    when it is already set raises "... is already set".  magnetMass and
    acceleratingVoltage are assigned by every magnet mass word and every
    accelerating voltage word with a value other than 0, set before or
    not, and the decoding goes on. *)
Theorem set_once_fields (contents : list byte) (scan_edac : N) (fuel : nat)
  (self : Mass) (cur : N) (b0 b1 b2 b3 : byte) (tl : list byte)
  (Hword : rest contents cur = b0 :: b1 :: b2 :: b3 :: tl) :
  let tmp := le32 b0 b1 b2 b3 in
  let value := word_value tmp in
  (word_key tmp = KEY_TIME -> channelTime self <> None ->
   Mass_loop contents scan_edac (S fuel) self cur =
     (Raise (PyException "channelTime is already set"), cur + 4)) /\
  (word_key tmp = KEY_TIME -> channelTime self = None ->
   Mass_loop contents scan_edac (S fuel) self cur =
     Mass_loop contents scan_edac fuel (setattr self attr_channelTime value) (cur + 4)) /\
  (word_key tmp = KEY_EOM -> duration self <> None ->
   Mass_loop contents scan_edac (S fuel) self cur =
     (Raise (PyException "duration is already set"), cur + 4)) /\
  (word_key tmp = KEY_EOM -> duration self = None ->
   Mass_loop contents scan_edac (S fuel) self cur =
     (Ok (set_size (setattr self attr_duration value) (cur + 4 - mass_offset self)),
      cur + 4)) /\
  (word_key tmp = KEY_MASS ->
   Mass_loop contents scan_edac (S fuel) self cur =
     Mass_loop contents scan_edac fuel (set_magnetMass self (Quot value (2 ^ 18)))
               (cur + 4)) /\
  (word_key tmp = KEY_VOLT -> value <> 0 ->
   Mass_loop contents scan_edac (S fuel) self cur =
     Mass_loop contents scan_edac fuel
               (set_acceleratingVoltage self (Quot (scan_edac * 1000) (value * 2 ^ 18)))
               (cur + 4)).
Proof.
  intros tmp value. rewrite (Mass_loop_word _ _ _ _ _ _ _ _ _ _ Hword).
  fold tmp. unfold Mass_item. fold value.
  repeat split; intros Hkey; rewrite Hkey; cbn [N.eqb KEY_EOS KEY_EOM KEY_BSCAN KEY_B KEY_VOLT KEY_TIME KEY_MASS Pos.eqb].
  - intros Hset. now rewrite (_SetAttr_set self attr_channelTime value Hset).
  - intros Hunset. now rewrite (_SetAttr_unset self attr_channelTime value Hunset).
  - intros Hset. now rewrite (_SetAttr_set self attr_duration value Hset).
  - intros Hunset. rewrite (_SetAttr_unset self attr_duration value Hunset).
    destruct self; reflexivity.
  - reflexivity.
  - intros Hval. apply N.eqb_neq in Hval. now rewrite Hval.
Qed.

(** ** How the decoding of a mass ends *)

Lemma word_at_rest (contents : list byte) (cur : N) (b0 b1 b2 b3 : byte) (tl : list byte) :
  rest contents cur = b0 :: b1 :: b2 :: b3 :: tl ->
  word_at contents cur = le32 b0 b1 b2 b3.
Proof.
  intros Hrest. unfold rest in Hrest.
  destruct (N.leb_spec (len contents) cur); [discriminate |].
  unfold word_at, byte_at.
  replace (N.to_nat cur) with (N.to_nat cur + 0)%nat at 1 by lia.
  replace (N.to_nat (cur + 1)) with (N.to_nat cur + 1)%nat by lia.
  replace (N.to_nat (cur + 2)) with (N.to_nat cur + 2)%nat by lia.
  replace (N.to_nat (cur + 3)) with (N.to_nat cur + 3)%nat by lia.
  rewrite <- !nth_skipn, Hrest. reflexivity.
Qed.

Lemma rest_word_fits (contents : list byte) (cur : N) (b0 b1 b2 b3 : byte) (tl : list byte) :
  rest contents cur = b0 :: b1 :: b2 :: b3 :: tl -> cur + 4 <= len contents.
Proof.
  intros Hrest. pose proof (length_rest contents cur) as Hlen.
  rewrite Hrest in Hlen. simpl in Hlen. lia.
Qed.

(** The loop breaks on the end-of-mass key only, raises EOS on the
    end-of-scan key only, and never raises struct.error by itself. *)
Lemma Mass_item_ends (scan_edac : N) (self : Mass) (tmp : N) :
  match Mass_item scan_edac self tmp with
  | Continue _ => True
  | Break _ => word_key tmp = KEY_EOM
  | Abort e => (e = EOS /\ word_key tmp = KEY_EOS) \/ (e <> EOS /\ e <> StructError)
  end.
Proof.
  unfold Mass_item, _SetAttr.
  destruct (N.eqb_spec (word_key tmp) KEY_EOS); [now left |].
  destruct (N.eqb_spec (word_key tmp) KEY_EOM).
  { destruct (getattr self attr_duration); [right; split; discriminate | assumption]. }
  Mass_item_cases; try exact I; right; split; discriminate.
Qed.

Lemma Mass_loop_ends (contents : list byte) (scan_edac : N) (fuel : nat) :
  forall (self : Mass) (cur : N) (r : outcome Mass) (cur' : N),
    Mass_loop contents scan_edac fuel self cur = (r, cur') ->
    match r with
    | Ok _ => cur + 4 <= cur' /\ word_key (word_at contents (cur' - 4)) = KEY_EOM
    | Raise EOS => cur + 4 <= cur' /\ word_key (word_at contents (cur' - 4)) = KEY_EOS
    | Raise StructError => cur' = N.max cur (len contents)
    | _ => True
    end.
Proof.
  induction fuel as [| fuel IH]; intros self cur r cur' Hrun.
  - injection Hrun as <- _. exact I.
  - destruct (rest_cases contents cur) as [(b0 & b1 & b2 & b3 & tl & Hrest) | Hshort].
    + rewrite (Mass_loop_word _ _ _ _ _ _ _ _ _ _ Hrest) in Hrun.
      pose proof (word_at_rest _ _ _ _ _ _ _ Hrest) as Hword.
      pose proof (rest_word_fits _ _ _ _ _ _ _ Hrest) as Hfit.
      pose proof (Mass_item_ends scan_edac self (le32 b0 b1 b2 b3)) as Hend.
      destruct (Mass_item scan_edac self (le32 b0 b1 b2 b3)) as [self' | self' | e].
      * apply IH in Hrun.
        destruct r as [m | [] |]; try exact I;
          try (split; [lia | apply Hrun]).
        lia.
      * injection Hrun as <- <-.
        replace (cur + 4 - 4) with cur by lia. rewrite Hword. split; [lia | exact Hend].
      * injection Hrun as <- <-.
        destruct Hend as [[-> Hkey] | [Hne1 Hne2]].
        -- replace (cur + 4 - 4) with cur by lia. rewrite Hword. split; [lia | exact Hkey].
        -- destruct e; try exact I; congruence.
    + rewrite Mass_loop_eof in Hrun by exact Hshort.
      injection Hrun as <- <-.
      pose proof (length_rest contents cur). lia.
Qed.


(** The two programs decode a mass at an offset in the same way. *)
Lemma Mass_init_same (contents : list byte) (scan : Scan) (offset cur : N) :
  ExtractDat.Mass_init contents scan offset cur = RecoverDat.Mass_init contents scan offset.
Proof. reflexivity. Qed.

Lemma GetMass_same (contents : list byte) (scan : Scan) (offset cur : N) :
  ExtractDat.GetMass contents scan offset cur = RecoverDat.GetMass contents scan offset.
Proof. reflexivity. Qed.

Lemma Recover_Mass_init_loop (contents : list byte) (scan : Scan) (cur : N) :
  RecoverDat.Mass_init contents scan cur =
    Mass_loop contents (edac scan) (Mass_fuel contents) (new_Mass cur) cur.
Proof. reflexivity. Qed.



(** ** Errors in the loop of [main] *)

(** An exception other than EOS in the first mass that is asked for leaves
    the iteration over the masses as it is. *)
Lemma Scan_masses_raise_first (contents : list byte) (fuel : nat) (scan : Scan)
  (offset cur cur' : N) (e : exn) :
  ExtractDat.Mass_init contents scan offset cur = (Raise e, cur') ->
  e <> EOS ->
  ExtractDat.Scan_masses contents (S fuel) scan offset cur = (Raise e, cur').
Proof.
  intros Hrun Hne. cbn [ExtractDat.Scan_masses].
  unfold ExtractDat.ScanIterator_next, ExtractDat.GetMass, bind, catch.
  rewrite Hrun. destruct e; try reflexivity. congruence.
Qed.

(** *** The loop of [main] terminates *)

Lemma Mass_item_offset (scan_edac : N) (self : Mass) (tmp : N) :
  match Mass_item scan_edac self tmp with
  | Continue self' | Break self' => mass_offset self' = mass_offset self
  | Abort _ => True
  end.
Proof. Mass_item_cases; try exact I; reflexivity. Qed.

(** A decoded mass ends inside the file, at least one word after its
    start, and its size is what was read. *)
Lemma Mass_loop_ok (contents : list byte) (scan_edac : N) (fuel : nat) :
  forall (self m : Mass) (cur cur' : N),
    Mass_loop contents scan_edac fuel self cur = (Ok m, cur') ->
    cur + 4 <= cur' /\ cur' <= len contents /\ size m = cur' - mass_offset self.
Proof.
  induction fuel as [| fuel IH]; intros self m cur cur' Hrun; [discriminate |].
  destruct (rest_cases contents cur) as [(b0 & b1 & b2 & b3 & tl & Hrest) | Hshort].
  - rewrite (Mass_loop_word _ _ _ _ _ _ _ _ _ _ Hrest) in Hrun.
    pose proof (rest_word_fits _ _ _ _ _ _ _ Hrest) as Hfit.
    pose proof (Mass_item_offset scan_edac self (le32 b0 b1 b2 b3)) as Hoff.
    destruct (Mass_item scan_edac self (le32 b0 b1 b2 b3)) as [self' | self' | e].
    + apply IH in Hrun. rewrite Hoff in Hrun. lia.
    + injection Hrun as <- <-. cbn [size set_size]. rewrite Hoff. lia.
    + discriminate.
  - rewrite Mass_loop_eof in Hrun by exact Hshort. discriminate.
Qed.

(** The iteration over the masses of a scan: every mass starts where the
    one before ended, at least four bytes further. *)
Lemma Scan_masses_total (contents : list byte) (scan : Scan) (fuel : nat) :
  forall offset cur : N,
    (N.to_nat (len contents - offset) < 4 * fuel)%nat ->
    fst (ExtractDat.Scan_masses contents fuel scan offset cur) <> OutOfFuel.
Proof.
  induction fuel as [| fuel IH]; intros offset cur Hfuel; [lia |].
  cbn [ExtractDat.Scan_masses].
  unfold ExtractDat.ScanIterator_next, ExtractDat.GetMass, bind, catch.
  rewrite Mass_init_same, Recover_Mass_init_loop.
  pose proof (Mass_loop_total contents (edac scan) (Mass_fuel contents)
                (new_Mass offset) offset (Mass_fuel_enough contents offset)) as Htotal.
  destruct (Mass_loop contents (edac scan) (Mass_fuel contents) (new_Mass offset) offset)
    as [[m | e |] cur'] eqn:Hrun.
  - apply Mass_loop_ok in Hrun. cbn [mass_offset new_Mass] in Hrun.
    destruct Hrun as (Hstart & Hend & Hsize).
    unfold ret. specialize (IH (offset + size m) cur').
    destruct (ExtractDat.Scan_masses contents fuel scan (offset + size m) cur')
      as [[masses | e |] cur''].
    + discriminate.
    + discriminate.
    + apply IH. lia.
  - destruct e; discriminate.
  - exfalso. now apply Htotal.
Qed.

Lemma Extract_GetScan_total (dat : ExtractDat.DatFile) (index : Z) :
  fst (ExtractDat.GetScan dat index) <> OutOfFuel /\
  ExtractDat._offsets (snd (ExtractDat.GetScan dat index)) = ExtractDat._offsets dat /\
  ExtractDat.path (snd (ExtractDat.GetScan dat index)) = ExtractDat.path dat.
Proof.
  unfold ExtractDat.GetScan, ExtractDat.on_fd.
  destruct (_CheckOpen (ExtractDat.fd dat)); [| repeat split; discriminate].
  destruct (Z.of_nat (length (ExtractDat._offsets dat)) <=? index)%Z;
    [repeat split; discriminate |].
  destruct (getitem (ExtractDat._offsets dat) index) as [offset |];
    [| repeat split; discriminate].
  rewrite Extract_Scan_init_spec.
  destruct (header_fits (ExtractDat.path dat) offset); repeat split; discriminate.
Qed.

(** The loop of [main] over the scans of a file does not run out of the
    fuel that [main_dat] gives it. *)
Lemma main_scans_total (fuel : nat) :
  forall (dat : ExtractDat.DatFile) (_i : Z),
    (Z.to_nat (Z.of_nat (ExtractDat.NumScans dat) - _i) < fuel)%nat ->
    fst (ExtractDat.main_scans fuel dat _i) <> OutOfFuel.
Proof.
  induction fuel as [| fuel IH]; intros dat _i Hfuel; [lia |].
  cbn [ExtractDat.main_scans]. unfold ExtractDat.DatFileIterator_next.
  destruct (Z.leb_spec (Z.of_nat (ExtractDat.NumScans dat)) _i) as [Hend | Hmore];
    [discriminate |].
  destruct (Extract_GetScan_total dat _i) as (Htotal & Hoffsets & Hpath).
  destruct (ExtractDat.GetScan dat _i) as [[scan | e |] dat'];
    cbn [fst snd] in *; [| discriminate | congruence].
  destruct (ExtractDat.fd dat') as [cur |]; [| discriminate].
  unfold ExtractDat.on_fd.
  pose proof (Scan_masses_total (ExtractDat.path dat') scan
                (Mass_fuel (ExtractDat.path dat')) (scan_offset scan) cur) as Hmasses.
  destruct (ExtractDat.Scan_masses (ExtractDat.path dat') (Mass_fuel (ExtractDat.path dat'))
              scan (scan_offset scan) cur) as [[masses | e |] cur'].
  - specialize (IH (ExtractDat.set_fd dat' (Some cur')) (_i + 1)%Z).
    destruct (ExtractDat.main_scans fuel (ExtractDat.set_fd dat' (Some cur')) (_i + 1))
      as [[rows | e |] dat3]; try discriminate.
    apply IH. unfold ExtractDat.NumScans in *.
    cbn [ExtractDat._offsets ExtractDat.set_fd]. rewrite Hoffsets. lia.
  - assert (Hrec : fst (ExtractDat.main_scans fuel (ExtractDat.set_fd dat' (Some cur'))
                          (_i + 1)) <> OutOfFuel).
    { apply IH. unfold ExtractDat.NumScans in *.
      cbn [ExtractDat._offsets ExtractDat.set_fd]. rewrite Hoffsets. lia. }
    destruct e; try discriminate; exact Hrec.
  - exfalso. apply Hmasses; [| reflexivity].
    unfold Mass_fuel, len. lia.
Qed.

Lemma main_dat_total (dat : ExtractDat.DatFile) :
  fst (ExtractDat.main_dat dat) <> OutOfFuel.
Proof.
  unfold ExtractDat.main_dat. apply main_scans_total.
  unfold ExtractDat.DatFileIterator_init, ExtractDat.NumScans, ExtractDat.Open.
  cbn [ExtractDat._offsets ExtractDat.set_fd]. lia.
Qed.

(** A channel time word when the channel time is set. *)
Lemma Mass_loop_time_twice (contents : list byte) (scan_edac : N) (fuel : nat)
  (self : Mass) (cur : N) (b0 b1 b2 b3 : byte) (tl : list byte) :
  rest contents cur = b0 :: b1 :: b2 :: b3 :: tl ->
  word_key (le32 b0 b1 b2 b3) = KEY_TIME ->
  channelTime self <> None ->
  Mass_loop contents scan_edac (S fuel) self cur =
    (Raise (PyException "channelTime is already set"), cur + 4).
Proof.
  intros Hrest Hkey Hset. rewrite (Mass_loop_word _ _ _ _ _ _ _ _ _ _ Hrest).
  unfold Mass_item. rewrite Hkey.
  cbn [N.eqb KEY_EOS KEY_EOM KEY_BSCAN KEY_B KEY_VOLT KEY_TIME Pos.eqb].
  now rewrite (_SetAttr_set self attr_channelTime _ Hset).
Qed.

(** An end-of-mass word when the duration is set. *)
Lemma Mass_loop_duration_twice (contents : list byte) (scan_edac : N) (fuel : nat)
  (self : Mass) (cur : N) (b0 b1 b2 b3 : byte) (tl : list byte) :
  rest contents cur = b0 :: b1 :: b2 :: b3 :: tl ->
  word_key (le32 b0 b1 b2 b3) = KEY_EOM ->
  duration self <> None ->
  Mass_loop contents scan_edac (S fuel) self cur =
    (Raise (PyException "duration is already set"), cur + 4).
Proof.
  intros Hrest Hkey Hset. rewrite (Mass_loop_word _ _ _ _ _ _ _ _ _ _ Hrest).
  unfold Mass_item. rewrite Hkey.
  cbn [N.eqb KEY_EOS KEY_EOM Pos.eqb].
  now rewrite (_SetAttr_set self attr_duration _ Hset).
Qed.

(** The duration is set by the end-of-mass word, which ends the loop: while
    the loop runs the duration is not set, and the error of a duration set
    twice does not come out of [Mass.__init__]. *)
Lemma Mass_item_duration (scan_edac : N) (self : Mass) (tmp : N) :
  duration self = None ->
  match Mass_item scan_edac self tmp with
  | Continue self' => duration self' = None
  | Break _ => True
  | Abort e => e <> PyException "duration is already set"
  end.
Proof.
  intros Hnone. unfold Mass_item, _SetAttr. cbn [getattr]. rewrite Hnone.
  repeat match goal with
         | |- context [if ?c then _ else _] => destruct c
         | |- context [match channelTime ?s with _ => _ end] => destruct (channelTime s)
         end;
    try exact I; try exact Hnone; discriminate.
Qed.

Lemma duration_never_twice (contents : list byte) (scan_edac : N) (fuel : nat) :
  forall (self : Mass) (cur cur' : N),
    duration self = None ->
    Mass_loop contents scan_edac fuel self cur
      <> (Raise (PyException "duration is already set"), cur').
Proof.
  induction fuel as [| fuel IH]; intros self cur cur' Hnone; [discriminate |].
  destruct (rest_cases contents cur) as [(b0 & b1 & b2 & b3 & tl & Hrest) | Hshort].
  - rewrite (Mass_loop_word _ _ _ _ _ _ _ _ _ _ Hrest).
    pose proof (Mass_item_duration scan_edac self (le32 b0 b1 b2 b3) Hnone) as Hstep.
    destruct (Mass_item scan_edac self (le32 b0 b1 b2 b3)) as [self' | self' | e].
    + now apply IH.
    + discriminate.
    + intros H. injection H as -> _. now apply Hstep.
  - rewrite Mass_loop_eof by exact Hshort. discriminate.
Qed.

(** C5, as the code has it.  The error of a field set twice (the channel
    time, or the duration) is a plain Exception.  The loop of [main] catches UnknownDataType and UnknownKey
    and goes on with the next scan; it does not catch the Exception, which
    leaves the loop: the traversal ends with it and no later scan is
    decoded. *)
Theorem duplicate_field_error_propagates (fuel : nat) (dat dat' : ExtractDat.DatFile)
  (_i _i' : Z) (scan : Scan) (cur cur' : N) (r : outcome (list Mass))
  (Hnext : ExtractDat.DatFileIterator_next dat _i = (Ok (Some (scan, _i')), dat'))
  (Hopen : ExtractDat.fd dat' = Some cur)
  (Hmasses : ExtractDat.Scan_masses (ExtractDat.path dat') (Mass_fuel (ExtractDat.path dat'))
               scan (scan_offset scan) cur = (r, cur')) :
  (forall msg, r = Raise (PyException msg) ->
     ExtractDat.main_scans (S fuel) dat _i
       = (Raise (PyException msg), ExtractDat.set_fd dat' (Some cur'))) /\
  (forall code, r = Raise (UnknownKey code) ->
     ExtractDat.main_scans (S fuel) dat _i
       = ExtractDat.main_scans fuel (ExtractDat.set_fd dat' (Some cur')) _i') /\
  (forall code, r = Raise (UnknownDataType code) ->
     ExtractDat.main_scans (S fuel) dat _i
       = ExtractDat.main_scans fuel (ExtractDat.set_fd dat' (Some cur')) _i') /\
  (forall e cur'',
     ExtractDat.Mass_init (ExtractDat.path dat') scan (scan_offset scan) cur
       = (Raise e, cur'') ->
     e <> EOS -> r = Raise e) /\
  (forall self b0 b1 b2 b3 tl pos,
     rest (ExtractDat.path dat') pos = b0 :: b1 :: b2 :: b3 :: tl ->
     (word_key (le32 b0 b1 b2 b3) = KEY_EOM -> duration self <> None ->
      Mass_loop (ExtractDat.path dat') (edac scan) (S fuel) self pos
        = (Raise (PyException "duration is already set"), pos + 4)) /\
     (word_key (le32 b0 b1 b2 b3) = KEY_TIME -> channelTime self <> None ->
      Mass_loop (ExtractDat.path dat') (edac scan) (S fuel) self pos
        = (Raise (PyException "channelTime is already set"), pos + 4))).
Proof.
  repeat split.
  - intros msg ->. cbn [ExtractDat.main_scans].
    rewrite Hnext, Hopen. unfold ExtractDat.on_fd. now rewrite Hmasses.
  - intros code ->. cbn [ExtractDat.main_scans].
    rewrite Hnext, Hopen. unfold ExtractDat.on_fd. now rewrite Hmasses.
  - intros code ->. cbn [ExtractDat.main_scans].
    rewrite Hnext, Hopen. unfold ExtractDat.on_fd. now rewrite Hmasses.
  - intros e cur'' Hfirst Hne.
    unfold Mass_fuel in Hmasses.
    rewrite (Scan_masses_raise_first _ _ _ _ _ _ _ Hfirst Hne) in Hmasses.
    now injection Hmasses as <- _.
  - intros Hkey Hset. eapply Mass_loop_duration_twice; eassumption.
  - intros Hkey Hset. eapply Mass_loop_time_twice; eassumption.
Qed.

(** ** The theorems on the test files *)

(** The header of the first scan of [file_two_scans], at offset 364, is
    accepted as scan 1. *)
Lemma recovery_header_validation_witness :
  364 + headerSize <= len file_two_scans /\
  snd (RecoverDat.Scan_init file_two_scans 1 364) = 364 + 188 /\
  (fst (RecoverDat.Scan_init file_two_scans 1 364) = Raise InvalidScanHeader <->
   (header_word file_two_scans 364 3, header_word file_two_scans 364 4,
    header_word file_two_scans 364 5) <> (0xD, 0xE, 0xF)
   \/ Z.of_N (header_word file_two_scans 364 9) <> 1%Z).
Proof.
  assert (Hfit : 364 + headerSize <= len file_two_scans).
  { apply N.leb_le. vm_compute. reflexivity. }
  split; [exact Hfit |].
  exact (recovery_header_validation file_two_scans 1 364 Hfit).
Defined.

(** In [file_two_scans] the recovery mode starts at 356, after the file
    header, refuses the eight positions of the index and finds scan 1 at
    364. *)
Lemma recovery_traversal_witness :
  RecoverDat.DatFileIterator_next (RecoverDat.Open (the_recover_dat file_two_scans)) 1 =
    (Ok (Some (scan_at 34 file_two_scans 364 364, 2%Z)),
     RecoverDat.set_fd (RecoverDat.Open (the_recover_dat file_two_scans)) (Some 552)).
Proof.
  assert (Hopen : RecoverDat.fd (RecoverDat.Open (the_recover_dat file_two_scans)) = Some 356).
  { vm_compute. reflexivity. }
  destruct (recovery_traversal _ 356 1 Hopen) as (_ & _ & Hfound & _).
  apply (Hfound 364).
  - lia.
  - vm_compute. reflexivity.
  - intros r Hr.
    assert (Hcases : r = 356 \/ r = 357 \/ r = 358 \/ r = 359 \/
                     r = 360 \/ r = 361 \/ r = 362 \/ r = 363) by lia.
    repeat (destruct Hcases as [-> | Hcases]; [vm_compute; reflexivity |]).
    subst r. vm_compute. reflexivity.
Defined.


(** A second channel time word. *)
Lemma set_once_fields_witness :
  rest (pack [word KEY_TIME 5; word KEY_TIME 6]) 4 = [x06; x00; x00; x30] /\
  Mass_loop (pack [word KEY_TIME 5; word KEY_TIME 6]) 7 1
            (setattr (new_Mass 0) attr_channelTime 5) 4
    = (Raise (PyException "channelTime is already set"), 8).
Proof.
  assert (Hword : rest (pack [word KEY_TIME 5; word KEY_TIME 6]) 4 = [x06; x00; x00; x30]).
  { vm_compute. reflexivity. }
  split; [exact Hword |].
  destruct (set_once_fields _ 7 0 (setattr (new_Mass 0) attr_channelTime 5) 4 _ _ _ _ _ Hword)
    as (Htwice & _).
  apply Htwice; [reflexivity | discriminate].
Defined.

(** C4, a counterexample to the wording of the specification: the second magnet mass word and the second
    accelerating voltage word of [stream_overwrite] replace the values of
    the first ones, and the mass is decoded without an error. *)
Lemma set_once_fields_counterexample :
  map word_key (words_of stream_overwrite)
    = [KEY_MASS; KEY_MASS; KEY_VOLT; KEY_VOLT; KEY_EOM] /\
  map word_value (words_of stream_overwrite) = [1; 2; 1; 2; 9] /\
  exists m,
    RecoverDat.Mass_init stream_overwrite bare_scan 0 = (Ok m, 20) /\
    ExtractDat.Mass_init stream_overwrite bare_scan 0 0 = (Ok m, 20) /\
    magnetMass m = Some (Quot 2 (2 ^ 18)) /\
    acceleratingVoltage m = Some (Quot (7 * 1000) (2 * 2 ^ 18)).
Proof.
  split; [vm_compute; reflexivity |]. split; [vm_compute; reflexivity |].
  eexists. split; [vm_compute; reflexivity |].
  split; [vm_compute; reflexivity |]. split; reflexivity.
Qed.

(** The first scan of [file_duplicate_time]: the second channel time word
    ends the loop of [main]. *)
Lemma duplicate_field_error_propagates_witness :
  ExtractDat.main_scans 3 (ExtractDat.Open (the_dat file_duplicate_time)) 0
    = (Raise (PyException "channelTime is already set"),
       ExtractDat.set_fd (the_dat file_duplicate_time) (Some 560)).
Proof.
  destruct (duplicate_field_error_propagates 2
              (ExtractDat.Open (the_dat file_duplicate_time))
              (ExtractDat.set_fd (the_dat file_duplicate_time) (Some 552))
              0 1 (indexed_scan file_duplicate_time 364) 552 560
              (Raise (PyException "channelTime is already set")))
    as (Hraise & _).
  - vm_compute. reflexivity.
  - reflexivity.
  - vm_compute. reflexivity.
  - exact (Hraise _ eq_refl).
Defined.

(** C5, a counterexample to the wording of the specification: with a mass that has two channel time words in
    its first scan, the traversal of [file_duplicate_time] ends with the
    Exception and yields no row, also not for the second scan; the same
    file with a word of an unknown key at that place yields the row of the
    second scan. *)
Lemma duplicate_field_error_counterexample :
  firstn 4 (map word_key (words_of (rest file_duplicate_time 552)))
    = [KEY_TIME; KEY_TIME; KEY_EOM; KEY_EOS] /\
  fst (ExtractDat.main_dat (the_dat file_duplicate_time))
    = Raise (PyException "channelTime is already set") /\
  exists rows,
    fst (ExtractDat.main_dat (the_dat file_unknown_key)) = Ok rows /\
    map (fun r : ExtractDat.row => number (fst r)) rows = [2].
Proof.
  split; [vm_compute; reflexivity |]. split; [vm_compute; reflexivity |].
  eexists. split; [vm_compute; reflexivity |]. reflexivity.
Qed.

(** The two scans of [file_two_scans] through the index. *)
Lemma indexed_traversal_witness :
  ExtractDat.GetScan (ExtractDat.Open (the_dat file_two_scans)) 2
    = (Raise IndexError, ExtractDat.Open (the_dat file_two_scans)) /\
  exists scans dat',
    ExtractDat.DatFile_scans 3 (fun _ cur => cur)
                             (ExtractDat.Open (the_dat file_two_scans)) 0
      = (Ok scans, dat') /\
    scans = [indexed_scan file_two_scans 364; indexed_scan file_two_scans 572] /\
    length scans = 2%nat.
Proof.
  destruct (indexed_traversal (ExtractDat.Open (the_dat file_two_scans)) 0 eq_refl)
    as (_ & _ & Hrange & Hiter).
  split.
  - apply Hrange. vm_compute. discriminate.
  - apply Hiter.
    change (ExtractDat._offsets (ExtractDat.Open (the_dat file_two_scans)))
      with [364; 572].
    repeat constructor.
Defined.

(** The last scan of [file_two_scans] under the index -1. *)
Lemma indexed_negative_index_witness :
  ExtractDat.GetScan (ExtractDat.Open (the_dat file_two_scans)) (-1)
    = (Ok (indexed_scan file_two_scans 572),
       ExtractDat.set_fd (ExtractDat.Open (the_dat file_two_scans)) (Some (572 + 188))).
Proof.
  destruct (indexed_negative_index (ExtractDat.Open (the_dat file_two_scans)) 0 (-1) eq_refl)
    as (offset & Hnth & _ & _ & Hscan).
  - vm_compute. split; [discriminate | reflexivity].
  - vm_compute in Hnth. injection Hnth as <-.
    apply Hscan. vm_compute. reflexivity.
Defined.


(** The mass of the first scan of [file_two_scans], with the measurement
    -20. *)
Lemma measurements_in_range_witness :
  (Z.abs (-20) <= (2 ^ 16 - 1) * 2 ^ 15)%Z /\ (- 2 ^ 31 < -20 < 2 ^ 31)%Z.
Proof.
  destruct (measurements_in_range file_two_scans (indexed_scan file_two_scans 364)
              552 0 568
              (mkMass 552 (Some (Quot 262144 262144)) None (Some 5) (Some 9)
                      [] [(-20)%Z] [] 16)) as [_ Hrange].
  - left. vm_compute. reflexivity.
  - apply Hrange. left. left. reflexivity.
Defined.



(** * Further properties of the code *)

(** ** The decoder over the words of the file *)

(** Case analysis on the tests with [=?] of the goal, with the equations. *)
Ltac eqb_cases :=
  repeat match goal with
         | |- context [?a =? ?b] => destruct (N.eqb_spec a b)
         end.

Lemma words_of_rest_word (contents : list byte) (cur : N) (b0 b1 b2 b3 : byte) (tl : list byte) :
  rest contents cur = b0 :: b1 :: b2 :: b3 :: tl ->
  words_of (rest contents cur) = le32 b0 b1 b2 b3 :: words_of (rest contents (cur + 4)).
Proof.
  intros Hrest. destruct (read_word _ _ _ _ _ _ _ Hrest) as [_ ->].
  now rewrite Hrest.
Qed.

Lemma words_of_rest_short (contents : list byte) (cur : N) :
  (length (rest contents cur) < 4)%nat -> words_of (rest contents cur) = [].
Proof.
  destruct (rest contents cur) as [| b0 [| b1 [| b2 [| b3 tl]]]]; simpl;
    intros H; try reflexivity; lia.
Qed.

Lemma Mass_run_offset (scan_edac : N) (ws : list N) :
  forall (self m : Mass) (k : nat),
    Mass_run scan_edac self ws = (Ended m, k) -> mass_offset m = mass_offset self.
Proof.
  induction ws as [| tmp ws IH]; intros self m k Hrun; [discriminate |].
  cbn [Mass_run] in Hrun.
  pose proof (Mass_item_offset scan_edac self tmp) as Hoff.
  destruct (Mass_item scan_edac self tmp) as [self' | self' | e].
  - destruct (Mass_run scan_edac self' ws) as [r k'] eqn:Hrec.
    injection Hrun as -> _. apply IH in Hrec. congruence.
  - injection Hrun as <- _. exact Hoff.
  - discriminate.
Qed.

(** The loop over the file is the run over the words that the file holds
    from the cursor on: the cursor moves four bytes a word, and when the
    words run out the last read is short. *)
Lemma Mass_loop_run (contents : list byte) (scan_edac : N) (fuel : nat) :
  forall (self : Mass) (cur : N),
    (length (rest contents cur) < 4 * fuel)%nat ->
    Mass_loop contents scan_edac fuel self cur =
      match Mass_run scan_edac self (words_of (rest contents cur)) with
      | (Ended m, k) =>
          (Ok (set_size m (cur + 4 * N.of_nat k - mass_offset self)), cur + 4 * N.of_nat k)
      | (Failed e, k) => (Raise e, cur + 4 * N.of_nat k)
      | (Exhausted _, _) => (Raise StructError, N.max cur (len contents))
      end.
Proof.
  induction fuel as [| fuel IH]; intros self cur Hfuel; [lia |].
  destruct (rest_cases contents cur) as [(b0 & b1 & b2 & b3 & tl & Hrest) | Hshort].
  - rewrite (Mass_loop_word _ _ _ _ _ _ _ _ _ _ Hrest).
    rewrite (words_of_rest_word _ _ _ _ _ _ _ Hrest). cbn [Mass_run].
    pose proof (rest_word_fits _ _ _ _ _ _ _ Hrest) as Hfit.
    pose proof (Mass_item_offset scan_edac self (le32 b0 b1 b2 b3)) as Hoff.
    destruct (Mass_item scan_edac self (le32 b0 b1 b2 b3)) as [self' | self' | e].
    + rewrite IH.
      * destruct (Mass_run scan_edac self' (words_of (rest contents (cur + 4))))
          as [[m | e | s] k]; rewrite ?Hoff;
          replace (cur + 4 + 4 * N.of_nat k) with (cur + 4 * N.of_nat (S k)) by lia;
          try reflexivity.
        f_equal. lia.
      * destruct (read_word _ _ _ _ _ _ _ Hrest) as [_ ->].
        rewrite Hrest in Hfuel. simpl in Hfuel. lia.
    + rewrite Hoff. reflexivity.
    + reflexivity.
  - rewrite Mass_loop_eof by exact Hshort.
    rewrite words_of_rest_short by exact Hshort. cbn [Mass_run].
    f_equal. pose proof (length_rest contents cur). lia.
Qed.

(** ** What a decoded mass holds *)

Ltac eqb_prune :=
  repeat match goal with
         | |- context [?a =? ?b] => destruct (N.eqb_spec a b); try congruence
         end.

(** What one word does to the fields of the mass. *)
Lemma Mass_item_effect (scan_edac : N) (self : Mass) (tmp : N) :
  match Mass_item scan_edac self tmp with
  | Continue self' =>
      word_key tmp <> KEY_EOM /\ word_key tmp <> KEY_EOS /\
      analog self' = analog self ++ stream_measurements DATA_ANALOG [tmp] /\
      pulse self' = pulse self ++ stream_measurements DATA_PULSE [tmp] /\
      faraday self' = faraday self ++ stream_measurements DATA_FARADAY [tmp] /\
      magnetMass self' =
        (if word_key tmp =? KEY_MASS then Some (magnet_float (word_value tmp))
         else magnetMass self) /\
      acceleratingVoltage self' =
        (if word_key tmp =? KEY_VOLT then Some (volt_float scan_edac (word_value tmp))
         else acceleratingVoltage self) /\
      channelTime self' = last_value KEY_TIME (channelTime self) [tmp] /\
      (word_key tmp = KEY_TIME -> channelTime self = None) /\
      duration self' = duration self
  | Break m =>
      word_key tmp = KEY_EOM /\ duration self = None /\
      m = setattr self attr_duration (word_value tmp)
  | Abort _ => True
  end.
Proof.
  unfold Mass_item, _SetAttr, stream_measurements, is_data, last_value, data_measurement,
    magnet_float, volt_float.
  unfold KEY_EOS, KEY_EOM, KEY_BSCAN, KEY_B, KEY_VOLT, KEY_TIME, KEY_MASS, KEY_DATA,
    DATA_ANALOG, DATA_PULSE, DATA_FARADAY.
  cbn [getattr filter map fold_left].
  eqb_prune; cbn [andb map app];
    try (destruct (duration self) eqn:Hd); try (destruct (channelTime self) eqn:Hc);
    try exact I;
    cbn [analog pulse faraday magnetMass acceleratingVoltage channelTime duration
         setattr set_magnetMass set_acceleratingVoltage append_analog append_pulse
         append_faraday];
    rewrite ?app_nil_r;
    repeat split; try congruence.
Qed.

Lemma last_value_init (key : N) (ws : list N) :
  forall init : option N,
    last_value key init ws =
      match last_value key None ws with
      | Some v => Some v
      | None => init
      end.
Proof.
  unfold last_value. induction ws as [| tmp ws IH]; intros init; [reflexivity |].
  cbn [fold_left]. rewrite IH. symmetry. rewrite IH.
  destruct (word_key tmp =? key); destruct (fold_left _ ws None); reflexivity.
Qed.

Lemma last_value_cons (key : N) (init : option N) (tmp : N) (ws : list N) :
  last_value key init (tmp :: ws) = last_value key (last_value key init [tmp]) ws.
Proof. reflexivity. Qed.

Lemma stream_measurements_cons (dataType tmp : N) (ws : list N) :
  stream_measurements dataType (tmp :: ws) =
    stream_measurements dataType [tmp] ++ stream_measurements dataType ws.
Proof.
  unfold stream_measurements. cbn [filter].
  destruct (is_data dataType tmp); reflexivity.
Qed.

(** A run that ends takes the words up to the first end-of-mass word; the
    mass has the measurements of the DATA words before it, in their order,
    the value of the last magnet mass and accelerating voltage words, and
    the values of the channel time and end-of-mass words. *)
Lemma Mass_run_ended (scan_edac : N) (ws : list N) :
  forall (self m : Mass) (k : nat),
    Mass_run scan_edac self ws = (Ended m, k) ->
    (1 <= k <= length ws)%nat /\
    word_key (nth (k - 1) ws 0) = KEY_EOM /\
    Forall (fun tmp => word_key tmp <> KEY_EOM /\ word_key tmp <> KEY_EOS)
           (firstn (k - 1) ws) /\
    duration m = Some (word_value (nth (k - 1) ws 0)) /\
    analog m = analog self ++ stream_measurements DATA_ANALOG (firstn (k - 1) ws) /\
    pulse m = pulse self ++ stream_measurements DATA_PULSE (firstn (k - 1) ws) /\
    faraday m = faraday self ++ stream_measurements DATA_FARADAY (firstn (k - 1) ws) /\
    magnetMass m =
      match last_value KEY_MASS None (firstn (k - 1) ws) with
      | Some v => Some (magnet_float v)
      | None => magnetMass self
      end /\
    acceleratingVoltage m =
      match last_value KEY_VOLT None (firstn (k - 1) ws) with
      | Some v => Some (volt_float scan_edac v)
      | None => acceleratingVoltage self
      end /\
    channelTime m = last_value KEY_TIME (channelTime self) (firstn (k - 1) ws).
Proof.
  induction ws as [| tmp ws IH]; intros self m k Hrun; [discriminate |].
  cbn [Mass_run] in Hrun.
  pose proof (Mass_item_effect scan_edac self tmp) as Heff.
  destruct (Mass_item scan_edac self tmp) as [self' | self' | e]; [| | discriminate].
  - destruct (Mass_run scan_edac self' ws) as [r k'] eqn:Hrec.
    injection Hrun as -> <-.
    destruct (IH _ _ _ Hrec)
      as (Hk & Heom & Hpre & Hdur & Han & Hpu & Hfa & Hmm & Hav & Hct).
    destruct Heff as (Hne1 & Hne2 & Ha & Hp & Hf & Hm & Hv & Hc & _ & Hd).
    replace (S k' - 1)%nat with (S (k' - 1)) by lia.
    cbn [firstn nth length].
    split; [lia |]. split; [exact Heom |].
    split; [constructor; [split; assumption | exact Hpre] |].
    split; [exact Hdur |].
    split; [rewrite Han, Ha, (stream_measurements_cons DATA_ANALOG tmp (firstn (k' - 1) ws)),
              app_assoc; reflexivity |].
    split; [rewrite Hpu, Hp, (stream_measurements_cons DATA_PULSE tmp (firstn (k' - 1) ws)),
              app_assoc; reflexivity |].
    split; [rewrite Hfa, Hf, (stream_measurements_cons DATA_FARADAY tmp (firstn (k' - 1) ws)),
              app_assoc; reflexivity |].
    split; [| split].
    + rewrite Hmm, Hm, last_value_cons.
      rewrite (last_value_init KEY_MASS (firstn (k' - 1) ws) (last_value KEY_MASS None [tmp])).
      destruct (last_value KEY_MASS None (firstn (k' - 1) ws)); [reflexivity |].
      unfold last_value. cbn [fold_left].
      destruct (word_key tmp =? KEY_MASS); reflexivity.
    + rewrite Hav, Hv, last_value_cons.
      rewrite (last_value_init KEY_VOLT (firstn (k' - 1) ws) (last_value KEY_VOLT None [tmp])).
      destruct (last_value KEY_VOLT None (firstn (k' - 1) ws)); [reflexivity |].
      unfold last_value. cbn [fold_left].
      destruct (word_key tmp =? KEY_VOLT); reflexivity.
    + rewrite Hct, Hc. reflexivity.
  - injection Hrun as <- <-.
    destruct Heff as (Hkey & Hd & ->).
    cbn [Nat.sub firstn nth length stream_measurements filter map last_value fold_left].
    rewrite !app_nil_r.
    repeat split; try assumption; try lia. constructor.
Qed.

Lemma length_words_of_le (n : nat) :
  forall bs : list byte,
    (length bs <= n)%nat -> (4 * length (words_of bs) <= length bs)%nat.
Proof.
  induction n as [| n IH]; intros bs Hlen;
    destruct bs as [| b0 [| b1 [| b2 [| b3 tl]]]]; simpl in *; try lia.
  specialize (IH tl). lia.
Qed.

Lemma nth_words_rest (contents : list byte) (pos : N) (i : nat) :
  (i < length (words_of (rest contents pos)))%nat ->
  nth i (words_of (rest contents pos)) 0 = word_at contents (pos + 4 * N.of_nat i).
Proof.
  intros Hi.
  pose proof (length_words_of_le _ _ (Nat.le_refl (length (rest contents pos)))) as Hlen.
  rewrite nth_words_of by lia.
  unfold rest in *. destruct (N.leb_spec (len contents) pos); [simpl in Hi; lia |].
  unfold word_at, byte_at. rewrite !nth_skipn.
  f_equal; apply (f_equal (fun n => nth n contents x00)); lia.
Qed.

(** A decoded mass is the end of the run over the words from its offset. *)
Lemma Mass_init_ok_run (contents : list byte) (scan : Scan) (offset cur' : N) (m : Mass) :
  RecoverDat.Mass_init contents scan offset = (Ok m, cur') ->
  exists (m0 : Mass) (k : nat),
    Mass_run (edac scan) (new_Mass offset) (words_of (rest contents offset)) = (Ended m0, k) /\
    m = set_size m0 (4 * N.of_nat k) /\ cur' = offset + 4 * N.of_nat k.
Proof.
  rewrite Recover_Mass_init_loop, Mass_loop_run by apply Mass_fuel_enough.
  destruct (Mass_run (edac scan) (new_Mass offset) (words_of (rest contents offset)))
    as [[m0 | e | s] k]; try discriminate.
  intros H. change (mass_offset (new_Mass offset)) with offset in H.
  replace (offset + 4 * N.of_nat k - offset) with (4 * N.of_nat k) in H by lia.
  injection H as <- <-. exists m0, k. repeat split.
Qed.

Lemma mass_words_run (contents : list byte) (offset : N) (k : nat) :
  (1 <= k)%nat ->
  mass_words contents offset (offset + 4 * N.of_nat k)
    = firstn (k - 1) (words_of (rest contents offset)).
Proof.
  intros Hk. unfold mass_words, words_from.
  replace (offset + 4 * N.of_nat k - offset) with (N.of_nat k * 4) by lia.
  rewrite N.div_mul by discriminate. now rewrite Nat2N.id.
Qed.

Lemma last_word_run (contents : list byte) (offset : N) (k : nat) :
  (1 <= k <= length (words_of (rest contents offset)))%nat ->
  word_at contents (offset + 4 * N.of_nat k - 4)
    = nth (k - 1) (words_of (rest contents offset)) 0.
Proof.
  intros Hk. rewrite nth_words_rest by lia. f_equal. lia.
Qed.

Lemma Mass_run_time_once (scan_edac : N) (ws : list N) :
  forall (self m : Mass) (k : nat),
    Mass_run scan_edac self ws = (Ended m, k) ->
    (length (filter (is_key KEY_TIME) (firstn (k - 1) ws))
     <= match channelTime self with Some _ => 0 | None => 1 end)%nat.
Proof.
  induction ws as [| tmp ws IH]; intros self m k Hrun; [discriminate |].
  cbn [Mass_run] in Hrun.
  pose proof (Mass_item_effect scan_edac self tmp) as Heff.
  destruct (Mass_item scan_edac self tmp) as [self' | self' | e]; [| | discriminate].
  - destruct (Mass_run scan_edac self' ws) as [r k'] eqn:Hrec.
    injection Hrun as -> <-.
    pose proof (proj1 (Mass_run_ended _ _ _ _ _ Hrec)) as Hk.
    apply IH in Hrec.
    destruct Heff as (_ & _ & _ & _ & _ & _ & _ & Hc & Hnone & _).
    replace (S k' - 1)%nat with (S (k' - 1)) by lia.
    cbn [firstn filter]. unfold is_key at 1.
    unfold last_value in Hc. cbn [fold_left] in Hc.
    destruct (N.eqb_spec (word_key tmp) KEY_TIME) as [Hkey | Hkey].
    + rewrite (Hnone Hkey). rewrite Hc in Hrec. cbn [length]. lia.
    + rewrite Hc in Hrec. exact Hrec.
  - injection Hrun as _ <-. cbn. destruct (channelTime self); lia.
Qed.

(** X1. The pulse, analog and faraday sequences of a decoded Mass are the
    measurements of the DATA words of that type among the words of the
    mass, in the order of the words; the two programs decode the same
    Mass. *)
Theorem decoded_measurements_in_order (contents : list byte) (scan : Scan)
  (offset cur cur' : N) (m : Mass)
  (Hdecoded : ExtractDat.Mass_init contents scan offset cur = (Ok m, cur')) :
  RecoverDat.Mass_init contents scan offset = (Ok m, cur') /\
  pulse m = stream_measurements DATA_PULSE (mass_words contents offset cur') /\
  analog m = stream_measurements DATA_ANALOG (mass_words contents offset cur') /\
  faraday m = stream_measurements DATA_FARADAY (mass_words contents offset cur').
Proof.
  rewrite Mass_init_same in Hdecoded. split; [exact Hdecoded |].
  destruct (Mass_init_ok_run _ _ _ _ _ Hdecoded) as (m0 & k & Hrun & -> & ->).
  destruct (Mass_run_ended _ _ _ _ _ Hrun)
    as (Hk & _ & _ & _ & Han & Hpu & Hfa & _).
  rewrite mass_words_run by lia.
  cbn [pulse analog faraday set_size]. rewrite Han, Hpu, Hfa. repeat split.
Qed.

(** X2. The scalar fields of a decoded Mass: the duration is the value of
    the end-of-mass word, the last word of the mass; magnetMass and
    acceleratingVoltage come from the last magnet mass word and the last
    accelerating voltage word of the mass (None when there is none);
    channelTime is the value of the channel time word, of which the mass has
    at most one. *)
Theorem decoded_scalar_fields (contents : list byte) (scan : Scan)
  (offset cur cur' : N) (m : Mass)
  (Hdecoded : ExtractDat.Mass_init contents scan offset cur = (Ok m, cur')) :
  duration m = Some (word_value (word_at contents (cur' - 4))) /\
  magnetMass m
    = option_map magnet_float (last_value KEY_MASS None (mass_words contents offset cur')) /\
  acceleratingVoltage m
    = option_map (volt_float (edac scan))
                 (last_value KEY_VOLT None (mass_words contents offset cur')) /\
  channelTime m = last_value KEY_TIME None (mass_words contents offset cur') /\
  (length (filter (is_key KEY_TIME) (mass_words contents offset cur')) <= 1)%nat.
Proof.
  rewrite Mass_init_same in Hdecoded.
  destruct (Mass_init_ok_run _ _ _ _ _ Hdecoded) as (m0 & k & Hrun & -> & ->).
  pose proof (Mass_run_time_once _ _ _ _ _ Hrun) as Honce.
  destruct (Mass_run_ended _ _ _ _ _ Hrun)
    as (Hk & _ & _ & Hdur & _ & _ & _ & Hmm & Hav & Hct).
  rewrite mass_words_run, last_word_run by lia.
  cbn [duration magnetMass acceleratingVoltage channelTime set_size].
  rewrite Hdur, Hmm, Hav, Hct.
  cbn [new_Mass magnetMass acceleratingVoltage channelTime] in *.
  split; [reflexivity |].
  split; [destruct (last_value KEY_MASS None _); reflexivity |].
  split; [destruct (last_value KEY_VOLT None _); reflexivity |].
  split; [reflexivity | exact Honce].
Qed.

(** X3. The extent of a decoded Mass: it starts at its offset, ends right
    after the first word from there with the end-of-mass key, before which
    no word has the end-of-scan key, and inside the file; its size is the
    number of bytes read, a multiple of 4 that is at least 4. *)
Theorem decoded_mass_extent (contents : list byte) (scan : Scan)
  (offset cur cur' : N) (m : Mass)
  (Hdecoded : ExtractDat.Mass_init contents scan offset cur = (Ok m, cur')) :
  mass_offset m = offset /\
  cur' = offset + size m /\
  4 <= size m /\ size m mod 4 = 0 /\
  cur' <= len contents /\
  word_key (word_at contents (cur' - 4)) = KEY_EOM /\
  N.of_nat (length (mass_words contents offset cur')) = size m / 4 - 1 /\
  Forall (fun tmp => word_key tmp <> KEY_EOM /\ word_key tmp <> KEY_EOS)
         (mass_words contents offset cur').
Proof.
  rewrite Mass_init_same in Hdecoded.
  pose proof Hdecoded as Hloop. rewrite Recover_Mass_init_loop in Hloop.
  apply Mass_loop_ok in Hloop. destruct Hloop as (_ & Hend & _).
  destruct (Mass_init_ok_run _ _ _ _ _ Hdecoded) as (m0 & k & Hrun & -> & ->).
  pose proof (Mass_run_offset _ _ _ _ _ Hrun) as Hoff.
  destruct (Mass_run_ended _ _ _ _ _ Hrun) as (Hk & Heom & Hpre & _).
  rewrite mass_words_run, last_word_run by lia.
  cbn [mass_offset size set_size].
  split; [exact Hoff |]. split; [reflexivity |]. split; [lia |].
  split; [rewrite N.mul_comm; apply N.Div0.mod_mul |].
  split; [exact Hend |]. split; [exact Heom |]. split; [| exact Hpre].
  rewrite length_firstn, N.mul_comm, N.div_mul by discriminate. lia.
Qed.

(** ** The fields of a record word, as quotients and remainders *)

Lemma word_value_mod (tmp : N) : word_value tmp = tmp mod 2 ^ 28.
Proof.
  unfold word_value. change 0x0FFFFFFF with (N.ones 28). apply N.land_ones.
Qed.

Lemma nibble_mod (a : N) : N.land a 0xF = a mod 16.
Proof. change 0xF with (N.ones 4). apply N.land_ones. Qed.

Lemma data_fields_div_mod (value : N) :
  data_flag value = (value / 2 ^ 24) mod 16 /\
  data_dataType value = (value / 2 ^ 20) mod 16 /\
  data_exp value = (value / 2 ^ 16) mod 16 /\
  data_magnitude value = value mod 2 ^ 16.
Proof.
  rewrite data_flag_spec, data_dataType_spec, data_exp_spec.
  rewrite !nibble_mod, !N.shiftr_div_pow2.
  repeat split.
  unfold data_magnitude. change 0x0000FFFF with (N.ones 16). apply N.land_ones.
Qed.

(** The quotient and the remainder of a division by a constant, for [lia]. *)
Ltac div_mod_facts x c :=
  let H1 := fresh "Hdiv" in
  let H2 := fresh "Hmod" in
  pose proof (N.div_mod' x c) as H1;
  assert (H2 : x mod c < c) by (apply N.mod_lt; discriminate).

(** X4. The fields that the decoder cuts out of a 32-bit word lose
    nothing: key (4 bits) and value (28 bits) put the word together again,
    and flag, dataType, exponent (4 bits each) and magnitude (16 bits) put
    the value together again. *)
Theorem word_fields_partition (tmp : N) (Hword : tmp < 2 ^ 32) :
  word_key tmp < 16 /\ word_value tmp < 2 ^ 28 /\
  tmp = word_key tmp * 2 ^ 28 + word_value tmp /\
  data_flag (word_value tmp) < 16 /\ data_dataType (word_value tmp) < 16 /\
  data_exp (word_value tmp) < 16 /\ data_magnitude (word_value tmp) < 2 ^ 16 /\
  word_value tmp =
    data_flag (word_value tmp) * 2 ^ 24 + data_dataType (word_value tmp) * 2 ^ 20
    + data_exp (word_value tmp) * 2 ^ 16 + data_magnitude (word_value tmp).
Proof.
  rewrite (word_key_shift tmp Hword), N.shiftr_div_pow2, word_value_mod.
  destruct (data_fields_div_mod (tmp mod 2 ^ 28)) as (-> & -> & -> & ->).
  set (v := tmp mod 2 ^ 28).
  div_mod_facts tmp (2 ^ 28). fold v in Hdiv, Hmod.
  div_mod_facts v (2 ^ 24). div_mod_facts (v / 2 ^ 24) 16.
  div_mod_facts v (2 ^ 20). div_mod_facts (v / 2 ^ 20) 16.
  div_mod_facts v (2 ^ 16). div_mod_facts (v / 2 ^ 16) 16.
  change (2 ^ 32) with 4294967296 in *. change (2 ^ 28) with 268435456 in *.
  change (2 ^ 24) with 16777216 in *. change (2 ^ 20) with 1048576 in *.
  change (2 ^ 16) with 65536 in *.
  clearbody v.
  generalize dependent (tmp / 268435456). intros key.
  generalize dependent (v mod 16777216). generalize dependent (v mod 1048576).
  generalize dependent (v mod 65536).
  generalize dependent ((v / 16777216) mod 16). generalize dependent (v / 16777216 / 16).
  generalize dependent ((v / 1048576) mod 16). generalize dependent (v / 1048576 / 16).
  generalize dependent ((v / 65536) mod 16). generalize dependent (v / 65536 / 16).
  generalize dependent (v / 16777216). generalize dependent (v / 1048576).
  generalize dependent (v / 65536).
  intros. repeat split; lia.
Qed.

(** ** The errors of the decoder *)

(** X5. The exceptions of one turn of the decoding loop.  UnknownKey is
    raised exactly for a key outside the eight known ones, and carries that
    key; UnknownDataType is raised exactly for a DATA word whose data type
    is not analog, pulse or faraday, and carries that data type;
    ZeroDivisionError is raised exactly for an accelerating voltage word
    with the value 0; EOS exactly for the end-of-scan key. *)
Theorem decode_error_codes (scan_edac : N) (self : Mass) (tmp : N) :
  (forall code,
      Mass_item scan_edac self tmp = Abort (UnknownKey code) <->
      code = word_key tmp /\
      ~ In (word_key tmp)
           [KEY_EOS; KEY_EOM; KEY_BSCAN; KEY_B; KEY_VOLT; KEY_TIME; KEY_MASS; KEY_DATA]) /\
  (forall code,
      Mass_item scan_edac self tmp = Abort (UnknownDataType code) <->
      word_key tmp = KEY_DATA /\ code = data_dataType (word_value tmp) /\
      ~ In code [DATA_ANALOG; DATA_PULSE; DATA_FARADAY]) /\
  (Mass_item scan_edac self tmp = Abort ZeroDivisionError <->
   word_key tmp = KEY_VOLT /\ word_value tmp = 0) /\
  (Mass_item scan_edac self tmp = Abort EOS <-> word_key tmp = KEY_EOS).
Proof.
  unfold Mass_item, _SetAttr.
  unfold KEY_EOS, KEY_EOM, KEY_BSCAN, KEY_B, KEY_VOLT, KEY_TIME, KEY_MASS, KEY_DATA,
    DATA_ANALOG, DATA_PULSE, DATA_FARADAY.
  cbn [getattr In].
  eqb_prune;
    try (destruct (duration self)); try (destruct (channelTime self));
    repeat split; intros; intuition (subst; congruence).
Qed.

(** ** Packing words *)

Lemma byte_val_byte_of (n : N) : byte_val (byte_of n) = n mod 256.
Proof.
  unfold byte_val, byte_of.
  destruct (Byte.of_N (n mod 256)) as [b |] eqn:Hb.
  - now apply Byte.to_of_N.
  - apply Byte.of_N_None_iff in Hb.
    assert (n mod 256 < 256) by (apply N.mod_lt; discriminate). lia.
Qed.

Lemma le32_pack_I (w : N) :
  w < 2 ^ 32 ->
  le32 (byte_of w) (byte_of (w / 256)) (byte_of (w / 65536)) (byte_of (w / 16777216)) = w.
Proof.
  intros Hw. unfold le32. rewrite !byte_val_byte_of.
  change (2 ^ 32) with 4294967296 in Hw.
  div_mod_facts w 256. div_mod_facts (w / 256) 256.
  div_mod_facts w 65536. div_mod_facts (w / 65536) 256.
  div_mod_facts w 16777216. div_mod_facts (w / 16777216) 256.
  generalize dependent (w mod 256). generalize dependent (w mod 65536).
  generalize dependent (w mod 16777216).
  generalize dependent ((w / 256) mod 256). generalize dependent (w / 256 / 256).
  generalize dependent ((w / 65536) mod 256). generalize dependent (w / 65536 / 256).
  generalize dependent ((w / 16777216) mod 256). generalize dependent (w / 16777216 / 256).
  generalize dependent (w / 256). generalize dependent (w / 65536).
  generalize dependent (w / 16777216).
  intros. lia.
Qed.

(** Unpacking what was packed gives the words back. *)
Lemma words_of_pack (ws : list N) :
  Forall (fun w => w < 2 ^ 32) ws -> words_of (pack ws) = ws.
Proof.
  induction 1 as [| w ws Hw _ IH]; [reflexivity |].
  unfold pack in *. cbn [flat_map pack_I app words_of].
  now rewrite le32_pack_I, IH.
Qed.

Lemma rest_0 (contents : list byte) : rest contents 0 = contents.
Proof.
  unfold rest, len. destruct contents; [reflexivity |].
  destruct (N.leb_spec (N.of_nat (length (b :: contents))) 0); [simpl in *; lia |].
  reflexivity.
Qed.

(** ** The words that the decoder passes over *)

Lemma Mass_item_inert (scan_edac : N) (self : Mass) (tmp : N) :
  inert tmp = true -> Mass_item scan_edac self tmp = Continue self.
Proof.
  unfold inert, is_key, Mass_item, KEY_EOS, KEY_EOM, KEY_BSCAN, KEY_B.
  intros H. apply orb_true_iff in H. rewrite !N.eqb_eq in H.
  destruct H as [-> | ->]; reflexivity.
Qed.

Lemma Mass_run_filter_inert (scan_edac : N) (ws : list N) :
  forall self : Mass,
    fst (Mass_run scan_edac self (filter (fun tmp => negb (inert tmp)) ws))
      = fst (Mass_run scan_edac self ws).
Proof.
  induction ws as [| tmp ws IH]; intros self; [reflexivity |].
  cbn [filter]. destruct (inert tmp) eqn:Hin; cbn [negb Mass_run].
  - rewrite (Mass_item_inert _ _ _ Hin), IH.
    now destruct (Mass_run scan_edac self ws).
  - destruct (Mass_item scan_edac self tmp) as [self' | |]; try reflexivity.
    specialize (IH self').
    destruct (Mass_run scan_edac self' ws), (Mass_run scan_edac self' (filter _ ws)).
    exact IH.
Qed.

Lemma Recover_Mass_init_run (contents : list byte) (scan : Scan) (offset : N) :
  RecoverDat.Mass_init contents scan offset =
    match Mass_run (edac scan) (new_Mass offset) (words_of (rest contents offset)) with
    | (Ended m, k) => (Ok (set_size m (4 * N.of_nat k)), offset + 4 * N.of_nat k)
    | (Failed e, k) => (Raise e, offset + 4 * N.of_nat k)
    | (Exhausted _, _) => (Raise StructError, N.max offset (len contents))
    end.
Proof.
  rewrite Recover_Mass_init_loop, Mass_loop_run by apply Mass_fuel_enough.
  destruct (Mass_run _ _ _) as [[m | e | s] k]; try reflexivity.
  change (mass_offset (new_Mass offset)) with offset.
  now replace (offset + 4 * N.of_nat k - offset) with (4 * N.of_nat k) by lia.
Qed.

(** X6. The words with the keys 0xC (B-scan) and 0xB do nothing: a stream
    of 32-bit words and the stream without these words decode to the same
    Mass, but for its size, or raise the same exception. *)
Theorem inert_words_ignored (ws : list N) (scan : Scan)
  (Hwords : Forall (fun w => w < 2 ^ 32) ws) :
  match fst (RecoverDat.Mass_init (pack ws) scan 0),
        fst (RecoverDat.Mass_init (pack (filter (fun tmp => negb (inert tmp)) ws)) scan 0)
  with
  | Ok m, Ok m' => m' = set_size m (size m')
  | Raise e, Raise e' => e = e'
  | _, _ => False
  end.
Proof.
  assert (Hwords' : Forall (fun w => w < 2 ^ 32) (filter (fun tmp => negb (inert tmp)) ws)).
  { apply Forall_forall. intros w Hin. apply filter_In in Hin.
    eapply Forall_forall in Hwords; [exact Hwords | apply Hin]. }
  rewrite !Recover_Mass_init_run, !rest_0, !words_of_pack by assumption.
  pose proof (Mass_run_filter_inert (edac scan) ws (new_Mass 0)) as Hsame.
  destruct (Mass_run (edac scan) (new_Mass 0) ws) as [r k],
    (Mass_run (edac scan) (new_Mass 0) (filter _ ws)) as [r' k'].
  cbn [fst] in *. subst r'. destruct r as [m | e | s]; cbn [fst]; reflexivity.
Qed.

(** ** The masses of a scan *)

(** One turn of the iteration over the masses, in the two programs. *)
Lemma Extract_Scan_masses_S (contents : list byte) (fuel : nat) (scan : Scan)
  (offset cur : N) :
  ExtractDat.Scan_masses contents (S fuel) scan offset cur =
    match RecoverDat.Mass_init contents scan offset with
    | (Ok m, cur1) =>
        match ExtractDat.Scan_masses contents fuel scan (offset + size m) cur1 with
        | (Ok masses, cur') => (Ok (m :: masses), cur')
        | r => r
        end
    | (Raise EOS, cur1) => (Ok [], cur1)
    | (Raise e, cur1) => (Raise e, cur1)
    | (OutOfFuel, cur1) => (OutOfFuel, cur1)
    end.
Proof.
  cbn [ExtractDat.Scan_masses].
  unfold ExtractDat.ScanIterator_next, ExtractDat.GetMass, bind, catch, ret.
  rewrite Mass_init_same.
  destruct (RecoverDat.Mass_init contents scan offset) as [[m | e |] cur1];
    [| destruct e |]; reflexivity.
Qed.

Lemma Recover_Scan_masses_S (contents : list byte) (fuel : nat) (scan : Scan) (cur : N) :
  RecoverDat.Scan_masses contents (S fuel) scan cur =
    match RecoverDat.Mass_init contents scan cur with
    | (Ok m, cur1) =>
        match RecoverDat.Scan_masses contents fuel scan cur1 with
        | (Ok masses, cur') => (Ok (m :: masses), cur')
        | r => r
        end
    | (Raise EOS, cur1) => (Ok [], cur1)
    | (Raise e, cur1) => (Raise e, cur1)
    | (OutOfFuel, cur1) => (OutOfFuel, cur1)
    end.
Proof.
  cbn [RecoverDat.Scan_masses].
  unfold RecoverDat.ScanIterator_next, RecoverDat.GetMass, bind, catch, ret.
  destruct (RecoverDat.Mass_init contents scan cur) as [[m | e |] cur1];
    [| destruct e |]; reflexivity.
Qed.

Lemma Recover_Mass_init_ok (contents : list byte) (scan : Scan) (offset cur' : N) (m : Mass) :
  RecoverDat.Mass_init contents scan offset = (Ok m, cur') ->
  mass_offset m = offset /\ cur' = offset + size m /\ 4 <= size m /\ cur' <= len contents.
Proof.
  intros Hrun. rewrite Recover_Mass_init_loop in Hrun.
  pose proof (Mass_loop_ok _ _ _ _ _ _ _ Hrun) as (Hstart & Hend & Hsize).
  change (mass_offset (new_Mass offset)) with offset in Hsize.
  assert (Hoff : mass_offset m = offset).
  { rewrite Mass_loop_run in Hrun by apply Mass_fuel_enough.
    destruct (Mass_run _ _ _) as [[m0 | e | s] k] eqn:Hr; try discriminate.
    injection Hrun as <- _. apply Mass_run_offset in Hr. exact Hr. }
  repeat split; try assumption; lia.
Qed.

Lemma Scan_masses_same_from (contents : list byte) (scan : Scan) (fuel : nat) :
  forall offset : N,
    ExtractDat.Scan_masses contents fuel scan offset offset
      = RecoverDat.Scan_masses contents fuel scan offset.
Proof.
  induction fuel as [| fuel IH]; intros offset; [reflexivity |].
  rewrite Extract_Scan_masses_S, Recover_Scan_masses_S.
  destruct (RecoverDat.Mass_init contents scan offset) as [[m | e |] cur1] eqn:Hrun;
    try reflexivity.
  apply Recover_Mass_init_ok in Hrun. destruct Hrun as (_ & -> & _).
  now rewrite IH.
Qed.

(** X7. The iteration of ExtractDat, which seeks every mass at the offset
    of the one before plus its size, and the iteration of RecoverDat, which
    reads every mass where the one before left the cursor, yield the same
    masses, raise the same exception and leave the cursor at the same
    place; and the iteration ends. *)
Theorem mass_iterations_agree (contents : list byte) (scan : Scan) (fuel : nat)
  (offset cur : N) :
  ExtractDat.Scan_masses contents (S fuel) scan offset cur
    = RecoverDat.Scan_masses contents (S fuel) scan offset /\
  fst (RecoverDat.Scan_masses contents (Mass_fuel contents) scan offset) <> OutOfFuel.
Proof.
  assert (Hsame : forall fuel',
             ExtractDat.Scan_masses contents (S fuel') scan offset cur
             = RecoverDat.Scan_masses contents (S fuel') scan offset).
  { intros fuel'. rewrite Extract_Scan_masses_S, Recover_Scan_masses_S.
    destruct (RecoverDat.Mass_init contents scan offset) as [[m | e |] cur1] eqn:Hrun;
      try reflexivity.
    apply Recover_Mass_init_ok in Hrun. destruct Hrun as (_ & -> & _).
    now rewrite Scan_masses_same_from. }
  split; [apply Hsame |].
  unfold Mass_fuel. rewrite <- Hsame. apply Scan_masses_total.
  unfold len. lia.
Qed.

Lemma Recover_Mass_init_EOS (contents : list byte) (scan : Scan) (offset cur' : N) :
  RecoverDat.Mass_init contents scan offset = (Raise EOS, cur') ->
  offset + 4 <= cur' /\ cur' <= len contents /\
  word_key (word_at contents (cur' - 4)) = KEY_EOS.
Proof.
  intros Hrun. pose proof Hrun as Hloop. rewrite Recover_Mass_init_loop in Hloop.
  apply Mass_loop_ends in Hloop. destruct Hloop as [Hstart Hkey].
  repeat split; try assumption.
  pose proof (rest_word_fits contents (cur' - 4)) as Hfit.
  destruct (rest_cases contents (cur' - 4)) as [(b0 & b1 & b2 & b3 & tl & Hrest) | Hshort].
  - specialize (Hfit _ _ _ _ _ Hrest). lia.
  - exfalso. revert Hkey. unfold word_at, byte_at.
    pose proof (length_rest contents (cur' - 4)) as Hlen.
    assert (Hout : forall j, (3 <= j)%nat ->
               nth (N.to_nat (cur' - 4) + j) contents x00 = x00).
    { intros j Hj. apply nth_overflow. unfold len in Hlen. lia. }
    replace (N.to_nat (cur' - 4 + 3)) with (N.to_nat (cur' - 4) + 3)%nat by lia.
    rewrite Hout by lia.
    unfold word_key, le32, byte_val. cbn [Byte.to_N].
    pose proof (byte_val_bound (nth (N.to_nat (cur' - 4)) contents x00)) as H0.
    pose proof (byte_val_bound (nth (N.to_nat (cur' - 4 + 1)) contents x00)) as H1.
    pose proof (byte_val_bound (nth (N.to_nat (cur' - 4 + 2)) contents x00)) as H2.
    unfold byte_val in *.
    set (w := _ + _ + _ + _).
    assert (Hw : w < 2 ^ 24) by (change (2 ^ 24) with 16777216; subst w; lia).
    change (N.shiftr (N.land w 0xF0000000) 28) with (word_key w).
    rewrite word_key_shift
      by (eapply N.lt_trans; [exact Hw | reflexivity]).
    rewrite N.shiftr_div_pow2.
    rewrite N.div_small by (eapply N.lt_trans; [exact Hw | reflexivity]).
    discriminate.
Qed.

Lemma Mass_run_prefix (scan_edac : N) (ws : list N) :
  forall (self : Mass) (r : run_end) (k : nat),
    Mass_run scan_edac self ws = (r, k) ->
    (k <= length ws)%nat /\
    Forall (fun tmp => word_key tmp <> KEY_EOM /\ word_key tmp <> KEY_EOS)
           (firstn (k - 1) ws) /\
    match r with
    | Exhausted _ => k = length ws
    | _ => (1 <= k)%nat
    end.
Proof.
  induction ws as [| tmp ws IH]; intros self r k Hrun.
  - injection Hrun as <- <-. repeat split; [reflexivity | constructor].
  - cbn [Mass_run] in Hrun.
    pose proof (Mass_item_effect scan_edac self tmp) as Heff.
    destruct (Mass_item scan_edac self tmp) as [self' | self' | e].
    + destruct (Mass_run scan_edac self' ws) as [r' k'] eqn:Hrec.
      injection Hrun as <- <-.
      destruct (IH _ _ _ Hrec) as (Hk & Hpre & Hr).
      destruct Heff as (Hne1 & Hne2 & _).
      split; [simpl; lia |]. split.
      * destruct k' as [| k']; [constructor |].
        replace (S (S k') - 1)%nat with (S (S k' - 1)) by lia.
        cbn [firstn]. constructor; [split; assumption | exact Hpre].
      * destruct r'; simpl; lia.
    + injection Hrun as <- <-. repeat split; [simpl; lia | constructor | lia].
    + injection Hrun as <- <-. repeat split; [simpl; lia | constructor | lia].
Qed.

(** The words before the end-of-scan word that ends the iteration. *)
Lemma Recover_Mass_init_EOS_words (contents : list byte) (scan : Scan) (offset cur' : N) :
  RecoverDat.Mass_init contents scan offset = (Raise EOS, cur') ->
  Forall (fun tmp => word_key tmp <> KEY_EOM /\ word_key tmp <> KEY_EOS)
         (mass_words contents offset cur').
Proof.
  rewrite Recover_Mass_init_run.
  destruct (Mass_run _ _ _) as [[m | e | s] k] eqn:Hrun; try discriminate.
  intros H.
  assert (Hc : cur' = offset + 4 * N.of_nat k) by congruence. subst cur'.
  destruct (Mass_run_prefix _ _ _ _ _ Hrun) as (_ & Hpre & Hk).
  now rewrite mass_words_run by exact Hk.
Qed.

(** X8. The masses of a scan lie one after the other: the first starts at
    the offset where the iteration starts and every other one where the one
    before ends, and every mass is the one that decoding at its offset
    gives.  The iteration ends with the attempt that raises EOS: the words
    that this attempt reads before the word with the end-of-scan key, none
    of them an end-of-mass word, are in no mass. *)
Theorem scan_masses_tile (contents : list byte) (scan : Scan) (fuel : nat) :
  forall (start cur cur' : N) (masses : list Mass),
    ExtractDat.Scan_masses contents fuel scan start cur = (Ok masses, cur') ->
    exists stop : N,
      contiguous start masses stop /\
      RecoverDat.Mass_init contents scan stop = (Raise EOS, cur') /\
      stop + 4 <= cur' /\ cur' <= len contents /\
      word_key (word_at contents (cur' - 4)) = KEY_EOS /\
      Forall (fun tmp => word_key tmp <> KEY_EOM /\ word_key tmp <> KEY_EOS)
             (mass_words contents stop cur') /\
      Forall (fun m => fst (RecoverDat.Mass_init contents scan (mass_offset m)) = Ok m)
             masses.
Proof.
  induction fuel as [| fuel IH]; intros start cur cur' masses Hrun; [discriminate |].
  rewrite Extract_Scan_masses_S in Hrun.
  destruct (RecoverDat.Mass_init contents scan start) as [[m | e |] cur1] eqn:Hmass.
  - destruct (ExtractDat.Scan_masses contents fuel scan (start + size m) cur1)
      as [[masses' | e |] cur''] eqn:Hrec; try discriminate.
    injection Hrun as <- <-.
    pose proof (Recover_Mass_init_ok _ _ _ _ _ Hmass) as (Hoff & Hcur1 & Hsize & _).
    destruct (IH _ _ _ _ Hrec) as (stop & Hcont & Hlast & Hstart & Hend & Hkey & Hdrop & Hall).
    exists stop. repeat split; try assumption.
    constructor; [| exact Hall].
    rewrite Hoff, Hmass. reflexivity.
  - destruct e; try discriminate. injection Hrun as <- <-.
    destruct (Recover_Mass_init_EOS _ _ _ _ Hmass) as (Hstart & Hend & Hkey).
    exists start. repeat split; try assumption.
    + now apply Recover_Mass_init_EOS_words with (scan := scan).
    + constructor.
  - discriminate.
Qed.

(** ** The file header and the index *)

(** The words of a block of the file that is read whole. *)
Lemma item_slice_words (contents : list byte) (pos n : N) (i : nat) :
  pos + n <= len contents -> (4 * i + 4 <= N.to_nat n)%nat ->
  item (words_of (slice contents pos n)) i = word_at contents (pos + 4 * N.of_nat i).
Proof.
  intros Hfit Hi. unfold item, word_at.
  assert (Hlen : length (slice contents pos n) = N.to_nat n).
  { pose proof (length_slice contents pos n) as H. rewrite N.min_l in H by lia. lia. }
  rewrite nth_words_of by lia.
  rewrite !nth_slice by (try assumption; lia).
  f_equal; apply f_equal; lia.
Qed.

Lemma unpack_slice (contents : list byte) (pos n : N) :
  unpack n (slice contents pos (n * 4)) =
    if (n =? 0) || (pos + n * 4 <=? len contents)
    then Val (words_of (slice contents pos (n * 4)))
    else Exc StructError.
Proof.
  unfold unpack. rewrite length_slice.
  destruct (N.eqb_spec n 0) as [-> | Hn]; cbn [orb].
  - change (0 * 4) with 0. now rewrite N.min_0_l.
  - destruct (N.leb_spec (pos + n * 4) (len contents)).
    + rewrite N.min_l by lia.
      destruct (N.eqb_spec (n * 4) (4 * n)); [reflexivity | lia].
    + destruct (N.eqb_spec (N.min (n * 4) (len contents - pos)) (4 * n)); [lia | reflexivity].
Qed.

Lemma Extract_read_header_spec (contents : list byte) (cur : N) :
  fst (ExtractDat.read_header contents cur) =
    if header_reads contents then
      Ok (ExtractDat.mkDatFile contents None
            (hdr_word contents HDR_TIMESTAMP) (hdr_word contents HDR_INDEX_LEN)
            (hdr_word contents HDR_INDEX_OFFSET)
            (words_of (slice contents 0x10 (85 * 4)))
            (words_of (slice contents (hdr_word contents HDR_INDEX_OFFSET + 4)
                             (hdr_word contents HDR_INDEX_LEN * 4))))
    else Raise StructError.
Proof.
  unfold ExtractDat.read_header, bind, seek, read, lift, ret, header_reads.
  change (N.of_nat HDR_NUM_FIELDS) with 85.
  rewrite (unpack_slice contents 0x10 85). cbn [N.eqb orb].
  destruct (N.leb_spec (0x10 + 85 * 4) (len contents)) as [Hfit | Hshort];
    [| reflexivity].
  cbn [andb].
  rewrite !item_slice_words by (try assumption; unfold HDR_INDEX_LEN, HDR_INDEX_OFFSET,
                                 HDR_TIMESTAMP; lia).
  fold (hdr_word contents HDR_INDEX_LEN). fold (hdr_word contents HDR_INDEX_OFFSET).
  fold (hdr_word contents HDR_TIMESTAMP).
  rewrite unpack_slice.
  destruct (_ || _); reflexivity.
Qed.

Lemma Recover_read_header_spec (contents : list byte) (cur : N) :
  fst (RecoverDat.read_header contents cur) =
    if header_reads contents then
      Ok (RecoverDat.mkDatFile contents None
            (hdr_word contents HDR_TIMESTAMP) (hdr_word contents HDR_INDEX_LEN)
            (hdr_word contents HDR_INDEX_OFFSET)
            (words_of (slice contents 0x10 (85 * 4)))
            (0x10 + 85 * 4)
            (words_of (slice contents (hdr_word contents HDR_INDEX_OFFSET + 4)
                             (hdr_word contents HDR_INDEX_LEN * 4))))
    else Raise StructError.
Proof.
  unfold RecoverDat.read_header, bind, seek, read, lift, ret, tell, header_reads.
  change (N.of_nat HDR_NUM_FIELDS) with 85.
  rewrite (unpack_slice contents 0x10 85). cbn [N.eqb orb].
  rewrite length_slice.
  destruct (N.leb_spec (0x10 + 85 * 4) (len contents)) as [Hfit | Hshort];
    [| reflexivity].
  cbn [andb]. rewrite N.min_l by lia.
  rewrite !item_slice_words by (try assumption; unfold HDR_INDEX_LEN, HDR_INDEX_OFFSET,
                                 HDR_TIMESTAMP; lia).
  fold (hdr_word contents HDR_INDEX_LEN). fold (hdr_word contents HDR_INDEX_OFFSET).
  fold (hdr_word contents HDR_TIMESTAMP).
  rewrite unpack_slice.
  destruct (_ || _); reflexivity.
Qed.

(** X9. [DatFile.__init__] on a file that holds the 85 words of the
    header from byte 16 on and the whole index: the timestamp is word 40 of
    the header, the index has as many entries as word 39 says, and entry
    [i] is the word at byte [4 + 4 * i] after the offset that word 33 gives;
    the file is not open.  Both programs read the same; [Open] puts the
    cursor at 0 in ExtractDat and after the header, at byte 356, in
    RecoverDat. *)
Theorem dat_header_fields (contents : list byte)
  (Hreads : header_reads contents = true) :
  exists (dat : ExtractDat.DatFile) (rdat : RecoverDat.DatFile),
    ExtractDat.DatFile_init contents = Ok dat /\
    RecoverDat.DatFile_init contents = Ok rdat /\
    ExtractDat.fd dat = None /\ RecoverDat.fd rdat = None /\
    ExtractDat.fd (ExtractDat.Open dat) = Some 0 /\
    RecoverDat.fd (RecoverDat.Open rdat) = Some 356 /\
    ExtractDat.timestamp dat = hdr_word contents 40 /\
    ExtractDat._indexLen dat = hdr_word contents 39 /\
    ExtractDat._indexOffset dat = hdr_word contents 33 /\
    RecoverDat.timestamp rdat = ExtractDat.timestamp dat /\
    RecoverDat._offsets rdat = ExtractDat._offsets dat /\
    length (ExtractDat._offsets dat) = N.to_nat (hdr_word contents 39) /\
    forall i : nat,
      (i < length (ExtractDat._offsets dat))%nat ->
      nth i (ExtractDat._offsets dat) 0
        = word_at contents (hdr_word contents 33 + 4 + 4 * N.of_nat i).
Proof.
  unfold ExtractDat.DatFile_init, RecoverDat.DatFile_init.
  rewrite Extract_read_header_spec, Recover_read_header_spec, Hreads.
  eexists _, _. split; [reflexivity |]. split; [reflexivity |].
  cbn [ExtractDat.fd RecoverDat.fd ExtractDat.Open RecoverDat.Open ExtractDat.set_fd
       RecoverDat.set_fd ExtractDat.timestamp ExtractDat._indexLen ExtractDat._indexOffset
       RecoverDat.timestamp RecoverDat._offsets ExtractDat._offsets RecoverDat.endOfHeader].
  do 9 (split; [reflexivity |]).
  unfold header_reads in Hreads. apply andb_true_iff in Hreads as [_ Hindex].
  change (hdr_word contents HDR_INDEX_LEN) with (hdr_word contents 39) in *.
  change (hdr_word contents HDR_INDEX_OFFSET) with (hdr_word contents 33) in *.
  destruct (N.eqb_spec (hdr_word contents 39) 0) as [Hzero | Hnonzero].
  - rewrite Hzero. change (0 * 4) with 0.
    assert (Hempty : slice contents (hdr_word contents 33 + 4) 0 = []).
    { unfold slice. destruct (len contents <=? hdr_word contents 33 + 4); [reflexivity |].
      now rewrite N.min_0_l. }
    rewrite Hempty. split; [reflexivity |]. cbn. intros i Hi. lia.
  - cbn [orb] in Hindex. apply N.leb_le in Hindex.
    assert (Hlen : length (words_of (slice contents (hdr_word contents 33 + 4)
                                           (hdr_word contents 39 * 4)))
                   = N.to_nat (hdr_word contents 39)).
    { apply length_words_of.
      pose proof (length_slice contents (hdr_word contents 33 + 4) (hdr_word contents 39 * 4)) as H.
      rewrite N.min_l in H by lia. lia. }
    split; [exact Hlen |].
    intros i Hi. rewrite Hlen in Hi.
    apply (item_slice_words contents (hdr_word contents 33 + 4) (hdr_word contents 39 * 4) i);
      lia.
Qed.


(** ** [GetScan] in indexed mode, for every index *)

(** X11. On an open file [GetScan(i)] of ExtractDat raises IndexError
    exactly for [i >= NumScans()] and for [i < -NumScans()]; the file is
    then left as it is. *)
Theorem GetScan_index_error (dat : ExtractDat.DatFile) (cur : N) (i : Z)
  (Hopen : ExtractDat.fd dat = Some cur) :
  (fst (ExtractDat.GetScan dat i) = Raise IndexError <->
   (Z.of_nat (ExtractDat.NumScans dat) <= i \/ i < - Z.of_nat (ExtractDat.NumScans dat))%Z) /\
  (fst (ExtractDat.GetScan dat i) = Raise IndexError ->
   snd (ExtractDat.GetScan dat i) = dat).
Proof.
  unfold ExtractDat.GetScan, ExtractDat.NumScans, getitem. rewrite Hopen. cbn [_CheckOpen].
  destruct (Z.leb_spec (Z.of_nat (length (ExtractDat._offsets dat))) i) as [Hhigh | Hlow].
  - split; [split; [lia | reflexivity] | reflexivity].
  - destruct (Z.leb_spec 0 i) as [Hpos | Hneg].
    + destruct (nth_error (ExtractDat._offsets dat) (Z.to_nat i)) as [offset |] eqn:Hnth.
      * unfold ExtractDat.on_fd. rewrite Extract_Scan_init_spec.
        destruct (header_fits (ExtractDat.path dat) offset); cbn [fst snd];
          (split; [split; [discriminate | lia] | discriminate]).
      * apply nth_error_None in Hnth. lia.
    + destruct (Z.leb_spec (- Z.of_nat (length (ExtractDat._offsets dat))) i) as [Hin | Hout].
      * destruct (nth_error (ExtractDat._offsets dat)
                    (Z.to_nat (Z.of_nat (length (ExtractDat._offsets dat)) + i)))
          as [offset |] eqn:Hnth.
        -- unfold ExtractDat.on_fd. rewrite Extract_Scan_init_spec.
           destruct (header_fits (ExtractDat.path dat) offset); cbn [fst snd];
             (split; [split; [discriminate | lia] | discriminate]).
        -- apply nth_error_None in Hnth. lia.
      * split; [split; [lia | reflexivity] | reflexivity].
Qed.

(** ** A file that is not open *)

(** X12. A DatFile is not open when it is made and after [Close]:
    [GetScan] then raises NotOpen in both programs and leaves the object as
    it is.  The iterator of RecoverDat raises NotOpen at once; the iterator
    of ExtractDat ends at once when the index is empty, before it looks at
    the file, and raises NotOpen otherwise. *)
Theorem closed_file_not_open (contents : list byte)
  (dat : ExtractDat.DatFile) (rdat : RecoverDat.DatFile)
  (Hdat : ExtractDat.DatFile_init contents = Ok dat)
  (Hrdat : RecoverDat.DatFile_init contents = Ok rdat) :
  ExtractDat.Close (ExtractDat.Open dat) = dat /\
  RecoverDat.Close (RecoverDat.Open rdat) = rdat /\
  (forall i, ExtractDat.GetScan dat i = (Raise NotOpen, dat)) /\
  (forall i, RecoverDat.GetScan rdat i = (Raise NotOpen, rdat)) /\
  (forall i, RecoverDat.DatFileIterator_next rdat i = (Raise NotOpen, rdat)) /\
  ExtractDat.DatFileIterator_next dat ExtractDat.DatFileIterator_init
    = (if (ExtractDat._indexLen dat =? 0) then Ok None else Raise NotOpen, dat).
Proof.
  pose proof (DatFile_init_NumScans _ _ Hdat) as [Hnum _].
  unfold ExtractDat.DatFile_init, RecoverDat.DatFile_init in *.
  rewrite Extract_read_header_spec in Hdat. rewrite Recover_read_header_spec in Hrdat.
  destruct (header_reads contents); [| discriminate].
  injection Hdat as <-. injection Hrdat as <-.
  split; [reflexivity |]. split; [reflexivity |].
  split; [reflexivity |]. split; [reflexivity |]. split; [reflexivity |].
  unfold ExtractDat.DatFileIterator_next, ExtractDat.DatFileIterator_init.
  rewrite Hnum. cbn [ExtractDat._indexLen].
  destruct (N.eqb_spec (hdr_word contents HDR_INDEX_LEN) 0) as [-> | Hne].
  - reflexivity.
  - destruct (Z.leb_spec (Z.of_nat (N.to_nat (hdr_word contents HDR_INDEX_LEN))) 0); [lia |].
    reflexivity.
Qed.

(** ** What the recovery mode finds *)

Lemma header_fits_later (contents : list byte) (cur r : N) :
  header_fits contents cur = false -> cur <= r -> header_fits contents r = false.
Proof.
  unfold header_fits. rewrite !N.leb_gt. lia.
Qed.

(** The answer of the loop of [GetScan], read backwards. *)
Lemma GetScan_loop_sound (contents : list byte) (index : Z) (fuel : nat) :
  forall (cur cur' : N) (r : outcome (option Scan)),
    RecoverDat.GetScan_loop contents fuel index cur = (r, cur') ->
    match r with
    | Ok (Some scan) =>
        exists pos,
          cur <= pos /\ valid_at contents pos index = true /\
          (forall q, cur <= q < pos -> valid_at contents q index = false) /\
          scan = scan_at 34 contents pos pos /\ cur' = pos + headerSize
    | Ok None =>
        (forall q, cur <= q -> valid_at contents q index = false) /\
        cur' = N.max cur (len contents)
    | Raise _ => False
    | OutOfFuel => True
    end.
Proof.
  induction fuel as [| fuel IH]; intros cur cur' r Hrun.
  - injection Hrun as <- _. exact I.
  - rewrite GetScan_loop_step in Hrun.
    destruct (header_fits contents cur) eqn:Hfit.
    + destruct (magic_ok contents cur && number_ok contents cur index) eqn:Hvalid.
      * injection Hrun as <- <-. exists cur.
        repeat split; try lia.
        unfold valid_at. rewrite Hfit. exact Hvalid.
      * apply IH in Hrun.
        assert (Hcur : valid_at contents cur index = false).
        { unfold valid_at. rewrite Hfit. exact Hvalid. }
        destruct r as [[scan |] | e |]; try exact Hrun.
        -- destruct Hrun as (pos & Hle & Hv & Hfirst & Hscan & Hcur').
           exists pos. repeat split; try assumption; try lia.
           intros q Hq. destruct (N.eq_dec q cur) as [-> | Hne]; [exact Hcur |].
           apply Hfirst. lia.
        -- destruct Hrun as (Hnone & Hcur'). split.
           ++ intros q Hq. destruct (N.eq_dec q cur) as [-> | Hne]; [exact Hcur |].
              apply Hnone. lia.
           ++ unfold header_fits in Hfit. apply N.leb_le in Hfit.
              unfold headerSize in Hfit. lia.
    + injection Hrun as <- <-. split.
      * intros q Hq. unfold valid_at.
        now rewrite (header_fits_later _ _ _ Hfit Hq).
      * unfold header_fits in Hfit. apply N.leb_gt in Hfit. lia.
Qed.

Lemma valid_at_fields (contents : list byte) (pos : N) (index : Z) :
  valid_at contents pos index = true ->
  pos + headerSize <= len contents /\
  (header_word contents pos 3, header_word contents pos 4, header_word contents pos 5)
    = (0xD, 0xE, 0xF) /\
  Z.of_N (header_word contents pos 9) = index.
Proof.
  intros Hvalid. pose proof (valid_at_fits _ _ _ Hvalid) as Hfit.
  unfold valid_at in Hvalid. apply andb_true_iff in Hvalid as [Hv Hnum].
  apply andb_true_iff in Hv as [_ Hmagic].
  split; [exact Hfit |]. split; [now apply magic_ok_iff | now apply number_ok_iff].
Qed.

(** X13. On an open file [GetScan] of RecoverDat never raises.  A scan
    that it returns lies at the first position from the cursor on with a
    whole header that has the words 0xD, 0xE, 0xF at 3, 4, 5 and the
    expected number at 9; the scan has that number, its offset is that
    position, and the cursor is left right after the header.  When it
    returns [None] no position from the cursor on has such a header. *)
Theorem recovered_scan_is_first (dat : RecoverDat.DatFile) (cur : N) (index : Z)
  (Hopen : RecoverDat.fd dat = Some cur) :
  match RecoverDat.GetScan dat index with
  | (Ok (Some scan), dat') =>
      cur <= scan_offset scan /\
      scan_offset scan + 188 <= len (RecoverDat.path dat) /\
      (header_word (RecoverDat.path dat) (scan_offset scan) 3,
       header_word (RecoverDat.path dat) (scan_offset scan) 4,
       header_word (RecoverDat.path dat) (scan_offset scan) 5) = (0xD, 0xE, 0xF) /\
      Z.of_N (number scan) = index /\
      number scan = header_word (RecoverDat.path dat) (scan_offset scan) 9 /\
      (forall q, cur <= q < scan_offset scan ->
                 valid_at (RecoverDat.path dat) q index = false) /\
      dat' = RecoverDat.set_fd dat (Some (scan_offset scan + 188))
  | (Ok None, dat') =>
      (forall q, cur <= q -> valid_at (RecoverDat.path dat) q index = false) /\
      dat' = RecoverDat.set_fd dat (Some (N.max cur (len (RecoverDat.path dat))))
  | (Raise _, _) => False
  | (OutOfFuel, _) => False
  end.
Proof.
  unfold RecoverDat.GetScan, RecoverDat.on_fd. rewrite Hopen. cbn [_CheckOpen].
  pose proof (GetScan_loop_total (RecoverDat.path dat) index
                (RecoverDat.GetScan_fuel (RecoverDat.path dat)) cur
                (GetScan_fuel_enough _ _)) as Htotal.
  destruct (RecoverDat.GetScan_loop (RecoverDat.path dat)
              (RecoverDat.GetScan_fuel (RecoverDat.path dat)) index cur)
    as [r cur'] eqn:Hrun.
  apply GetScan_loop_sound in Hrun.
  destruct r as [[scan |] | e |]; cbn [fst] in *.
  - destruct Hrun as (pos & Hle & Hvalid & Hfirst & -> & ->).
    destruct (valid_at_fields _ _ _ Hvalid) as (Hfit & Hmagic & Hnum).
    cbn [scan_offset number scan_at]. unfold headerSize in *.
    repeat split; try assumption.
  - destruct Hrun as [Hnone ->]. split; [exact Hnone | reflexivity].
  - exact Hrun.
  - now apply Htotal.
Qed.

(** ** The traversal of the recovery mode *)

Lemma Mass_loop_cursor (contents : list byte) (scan_edac : N) (fuel : nat) :
  forall (self : Mass) (cur cur' : N) (r : outcome Mass),
    Mass_loop contents scan_edac fuel self cur = (r, cur') -> cur <= cur'.
Proof.
  induction fuel as [| fuel IH]; intros self cur cur' r Hrun.
  - injection Hrun as _ <-. lia.
  - destruct (rest_cases contents cur) as [(b0 & b1 & b2 & b3 & tl & Hrest) | Hshort].
    + rewrite (Mass_loop_word _ _ _ _ _ _ _ _ _ _ Hrest) in Hrun.
      destruct (Mass_item scan_edac self (le32 b0 b1 b2 b3)) as [self' | self' | e].
      * apply IH in Hrun. lia.
      * injection Hrun as _ <-. lia.
      * injection Hrun as _ <-. lia.
    + rewrite Mass_loop_eof in Hrun by exact Hshort. injection Hrun as _ <-. lia.
Qed.

Lemma Recover_Scan_masses_cursor (contents : list byte) (scan : Scan) (fuel : nat) :
  forall (cur cur' : N) (r : outcome (list Mass)),
    RecoverDat.Scan_masses contents fuel scan cur = (r, cur') -> cur <= cur'.
Proof.
  induction fuel as [| fuel IH]; intros cur cur' r Hrun.
  - injection Hrun as _ <-. lia.
  - rewrite Recover_Scan_masses_S in Hrun.
    destruct (RecoverDat.Mass_init contents scan cur) as [rm cur1] eqn:Hmass.
    rewrite Recover_Mass_init_loop in Hmass. apply Mass_loop_cursor in Hmass.
    destruct rm as [m | e |].
    + destruct (RecoverDat.Scan_masses contents fuel scan cur1) as [r' cur2] eqn:Hrec.
      apply IH in Hrec.
      destruct r'; injection Hrun as _ <-; lia.
    + destruct e; injection Hrun as _ <-; lia.
    + injection Hrun as _ <-. lia.
Qed.

Lemma Recover_Scan_masses_total (contents : list byte) (scan : Scan) (cur : N) :
  fst (RecoverDat.Scan_masses contents (Mass_fuel contents) scan cur) <> OutOfFuel.
Proof.
  rewrite <- Scan_masses_same_from. apply Scan_masses_total.
  unfold Mass_fuel, len. lia.
Qed.

Lemma ascending_weaken (contents : list byte) (rows : list RecoverDat.row)
  (index index' : Z) (cur cur' : N) :
  (index' <= index)%Z -> cur' <= cur ->
  ascending contents index cur rows -> ascending contents index' cur' rows.
Proof.
  destruct rows as [| [scan masses] rows]; [trivial |].
  cbn [ascending]. intros Hi Hc (Hidx & Hcur & Hvalid & Hrest).
  repeat split; try assumption; lia.
Qed.

(** What [next] of the recovery mode answers on an open file. *)
Lemma Recover_next_spec (dat : RecoverDat.DatFile) (cur : N) (index : Z) :
  RecoverDat.fd dat = Some cur ->
  (exists pos,
      cur <= pos /\ valid_at (RecoverDat.path dat) pos index = true /\
      RecoverDat.DatFileIterator_next dat index =
        (Ok (Some (scan_at 34 (RecoverDat.path dat) pos pos, (index + 1)%Z)),
         RecoverDat.set_fd dat (Some (pos + headerSize)))) \/
  (exists cur',
      RecoverDat.DatFileIterator_next dat index
        = (Ok None, RecoverDat.set_fd dat (Some cur'))).
Proof.
  intros Hopen.
  unfold RecoverDat.DatFileIterator_next, RecoverDat.GetScan, RecoverDat.on_fd.
  rewrite Hopen. cbn [_CheckOpen].
  pose proof (GetScan_loop_total (RecoverDat.path dat) index
                (RecoverDat.GetScan_fuel (RecoverDat.path dat)) cur
                (GetScan_fuel_enough _ _)) as Htotal.
  destruct (RecoverDat.GetScan_loop (RecoverDat.path dat)
              (RecoverDat.GetScan_fuel (RecoverDat.path dat)) index cur)
    as [r cur'] eqn:Hrun.
  apply GetScan_loop_sound in Hrun.
  destruct r as [[scan |] | e |]; cbn [fst] in *.
  - destruct Hrun as (pos & Hle & Hvalid & _ & -> & ->).
    left. exists pos. repeat split; assumption.
  - right. now exists cur'.
  - contradiction.
  - exfalso. now apply Htotal.
Qed.

Lemma Recover_main_scans_ascending (fuel : nat) :
  forall (dat dat' : RecoverDat.DatFile) (cur : N) (index : Z) (rows : list RecoverDat.row),
    RecoverDat.fd dat = Some cur ->
    RecoverDat.main_scans fuel dat index = (Ok rows, dat') ->
    ascending (RecoverDat.path dat) index cur rows.
Proof.
  induction fuel as [| fuel IH]; intros dat dat' cur index rows Hopen Hrun; [discriminate |].
  cbn [RecoverDat.main_scans] in Hrun.
  destruct (Recover_next_spec dat cur index Hopen)
    as [(pos & Hle & Hvalid & Hnext) | (cur' & Hnext)]; rewrite Hnext in Hrun.
  - cbn [RecoverDat.fd RecoverDat.set_fd RecoverDat.path] in Hrun.
    unfold RecoverDat.on_fd in Hrun.
    destruct (RecoverDat.Scan_masses (RecoverDat.path dat) (Mass_fuel (RecoverDat.path dat))
                (scan_at 34 (RecoverDat.path dat) pos pos) (pos + headerSize))
      as [rm cur2] eqn:Hmasses.
    apply Recover_Scan_masses_cursor in Hmasses.
    assert (Hrec : forall rows1 dat1,
               RecoverDat.main_scans fuel
                 (RecoverDat.set_fd (RecoverDat.set_fd dat (Some (pos + headerSize)))
                                    (Some cur2)) (index + 1) = (Ok rows1, dat1) ->
               ascending (RecoverDat.path dat) (index + 1) (pos + headerSize) rows1).
    { intros rows1 dat1 H. apply (IH _ _ cur2) in H; [| reflexivity].
      cbn [RecoverDat.path RecoverDat.set_fd] in H.
      eapply ascending_weaken; [| exact Hmasses | exact H]. lia. }
    destruct (valid_at_fields _ _ _ Hvalid) as (_ & _ & Hnum).
    destruct rm as [masses | e |].
    + destruct (RecoverDat.main_scans fuel _ (index + 1)) as [[rows1 | e |] dat1] eqn:Hmain;
        try discriminate.
      injection Hrun as <- _.
      cbn [ascending scan_offset number scan_at]. rewrite Hnum.
      repeat split; try assumption; try lia.
      now apply (Hrec rows1 dat1).
    + destruct e; try discriminate;
        (apply (ascending_weaken _ _ (index + 1) index (pos + headerSize) cur);
         [lia | lia | eapply Hrec; exact Hrun]).
    + discriminate.
  - injection Hrun as <- _. exact I.
Qed.

Lemma Recover_main_scans_total (fuel : nat) :
  forall (dat : RecoverDat.DatFile) (cur : N) (index : Z),
    RecoverDat.fd dat = Some cur ->
    (N.to_nat (len (RecoverDat.path dat) - cur) < fuel)%nat ->
    fst (RecoverDat.main_scans fuel dat index) <> OutOfFuel.
Proof.
  induction fuel as [| fuel IH]; intros dat cur index Hopen Hfuel; [lia |].
  cbn [RecoverDat.main_scans].
  destruct (Recover_next_spec dat cur index Hopen)
    as [(pos & Hle & Hvalid & Hnext) | (cur' & Hnext)]; rewrite Hnext; [| discriminate].
  cbn [RecoverDat.fd RecoverDat.set_fd RecoverDat.path]. unfold RecoverDat.on_fd.
  pose proof (Recover_Scan_masses_total (RecoverDat.path dat)
                (scan_at 34 (RecoverDat.path dat) pos pos) (pos + headerSize)) as Htotal.
  destruct (RecoverDat.Scan_masses (RecoverDat.path dat) (Mass_fuel (RecoverDat.path dat))
              (scan_at 34 (RecoverDat.path dat) pos pos) (pos + headerSize))
    as [rm cur2] eqn:Hmasses.
  apply Recover_Scan_masses_cursor in Hmasses.
  pose proof (valid_at_fits _ _ _ Hvalid) as Hfit. unfold headerSize in *.
  assert (Hrec : fst (RecoverDat.main_scans fuel
                        (RecoverDat.set_fd (RecoverDat.set_fd dat (Some (pos + 47 * 4)))
                                           (Some cur2)) (index + 1)) <> OutOfFuel).
  { apply (IH _ cur2); [reflexivity |].
    cbn [RecoverDat.path RecoverDat.set_fd]. lia. }
  destruct rm as [masses | e |].
  - destruct (RecoverDat.main_scans fuel _ (index + 1)) as [[rows1 | e |] dat1];
      cbn [fst] in *; congruence.
  - destruct e; try discriminate; exact Hrec.
  - exfalso. now apply Htotal.
Qed.

(** X14. The traversal of the recovery mode over a file ends, and the
    rows it gives are in ascending order: the scan numbers go up from 1 and
    the headers of the scans lie at ascending positions after the file
    header, each at least a header after the one before, and each with the
    magic words and the number of its scan. *)
Theorem recovery_rows_ascend (dat : RecoverDat.DatFile) :
  fst (RecoverDat.main_dat dat) <> OutOfFuel /\
  forall rows dat',
    RecoverDat.main_dat dat = (Ok rows, dat') ->
    ascending (RecoverDat.path dat) 1 (RecoverDat.endOfHeader dat) rows.
Proof.
  unfold RecoverDat.main_dat. split.
  - apply (Recover_main_scans_total _ _ (RecoverDat.endOfHeader dat)); [reflexivity |].
    cbn [RecoverDat.path RecoverDat.Open RecoverDat.set_fd]. unfold len. lia.
  - intros rows dat' Hrun.
    apply (Recover_main_scans_ascending _ _ _ (RecoverDat.endOfHeader dat)) in Hrun;
      [exact Hrun | reflexivity].
Qed.

(** ** The two traversals on a file with a good index *)

(** Decoding the masses of a scan uses nothing of the scan but edac. *)
Lemma Recover_Scan_masses_edac (contents : list byte) (scan scan' : Scan) (fuel : nat) :
  edac scan = edac scan' ->
  forall cur : N,
    RecoverDat.Scan_masses contents fuel scan cur
      = RecoverDat.Scan_masses contents fuel scan' cur.
Proof.
  intros Hedac. induction fuel as [| fuel IH]; intros cur; [reflexivity |].
  rewrite !Recover_Scan_masses_S, !Recover_Mass_init_loop, Hedac.
  destruct (Mass_loop contents (edac scan') (Mass_fuel contents) (new_Mass cur) cur)
    as [[m | e |] cur1]; try reflexivity.
  now rewrite IH.
Qed.

Lemma rows_view_cons {D : Type} (r : Scan * list Mass)
  (rec : outcome (list (Scan * list Mass)) * D) :
  rows_view (fst (match rec with
                  | (Ok rows, d) => (Ok (r :: rows), d)
                  | (Raise e, d) => (Raise e, d)
                  | (OutOfFuel, d) => (OutOfFuel, d)
                  end))
  = match rows_view (fst rec) with
    | Ok views => Ok (row_view r :: views)
    | Raise e => Raise e
    | OutOfFuel => OutOfFuel
    end.
Proof. destruct rec as [[rows | e |] d]; reflexivity. Qed.

Lemma Extract_main_scans_step (fuel : nat) (xdat : ExtractDat.DatFile) (cx offset : N)
  (pre post : list N) :
  ExtractDat.fd xdat = Some cx ->
  ExtractDat._offsets xdat = pre ++ offset :: post ->
  header_fits (ExtractDat.path xdat) offset = true ->
  ExtractDat.main_scans (S fuel) xdat (Z.of_nat (length pre)) =
    let scan := indexed_scan (ExtractDat.path xdat) offset in
    match RecoverDat.Scan_masses (ExtractDat.path xdat) (Mass_fuel (ExtractDat.path xdat))
            scan (offset + headerSize) with
    | (Ok masses, cur') =>
        match ExtractDat.main_scans fuel (ExtractDat.set_fd xdat (Some cur'))
                (Z.of_nat (length (pre ++ [offset]))) with
        | (Ok rows, d) => (Ok ((scan, masses) :: rows), d)
        | (Raise e, d) => (Raise e, d)
        | (OutOfFuel, d) => (OutOfFuel, d)
        end
    | (Raise (UnknownDataType _), cur') =>
        ExtractDat.main_scans fuel (ExtractDat.set_fd xdat (Some cur'))
          (Z.of_nat (length (pre ++ [offset])))
    | (Raise (UnknownKey _), cur') =>
        ExtractDat.main_scans fuel (ExtractDat.set_fd xdat (Some cur'))
          (Z.of_nat (length (pre ++ [offset])))
    | (Raise e, cur') => (Raise e, ExtractDat.set_fd xdat (Some cur'))
    | (OutOfFuel, cur') => (OutOfFuel, ExtractDat.set_fd xdat (Some cur'))
    end.
Proof.
  intros Hopen Hoff Hfit. cbn [ExtractDat.main_scans].
  unfold ExtractDat.DatFileIterator_next, ExtractDat.NumScans.
  rewrite Hoff, length_app.
  destruct (Z.leb_spec (Z.of_nat (length pre + length (offset :: post)))
                       (Z.of_nat (length pre))); [simpl in *; lia |].
  rewrite (Extract_GetScan_at xdat cx _ offset); cycle 1.
  { exact Hopen. }
  { unfold ExtractDat.NumScans. rewrite Hoff, length_app. simpl. lia. }
  { rewrite Hoff, getitem_nonneg by lia. rewrite Nat2Z.id.
    rewrite nth_error_app2 by lia. now rewrite Nat.sub_diag. }
  rewrite Extract_on_fd_Scan_init by exact Hfit.
  cbn [ExtractDat.fd ExtractDat.set_fd ExtractDat.path]. unfold ExtractDat.on_fd.
  fold (indexed_scan (ExtractDat.path xdat) offset).
  change (scan_offset (indexed_scan (ExtractDat.path xdat) offset))
    with (offset + headerSize).
  rewrite Scan_masses_same_from.
  replace (Z.of_nat (length pre) + 1)%Z with (Z.of_nat (length (pre ++ [offset])))
    by (rewrite length_app; simpl; lia).
  cbv zeta.
  destruct (RecoverDat.Scan_masses _ _ _ _) as [[masses | e |] cur']; reflexivity.
Qed.

Lemma Recover_main_scans_step (fuel : nat) (rdat : RecoverDat.DatFile) (cr offset : N)
  (index : Z) :
  RecoverDat.fd rdat = Some cr ->
  cr <= offset ->
  valid_at (RecoverDat.path rdat) offset index = true ->
  (forall q, cr <= q < offset -> valid_at (RecoverDat.path rdat) q index = false) ->
  RecoverDat.main_scans (S fuel) rdat index =
    let scan := scan_at 34 (RecoverDat.path rdat) offset offset in
    match RecoverDat.Scan_masses (RecoverDat.path rdat) (Mass_fuel (RecoverDat.path rdat))
            scan (offset + headerSize) with
    | (Ok masses, cur') =>
        match RecoverDat.main_scans fuel (RecoverDat.set_fd rdat (Some cur')) (index + 1) with
        | (Ok rows, d) => (Ok ((scan, masses) :: rows), d)
        | (Raise e, d) => (Raise e, d)
        | (OutOfFuel, d) => (OutOfFuel, d)
        end
    | (Raise (UnknownDataType _), cur') =>
        RecoverDat.main_scans fuel (RecoverDat.set_fd rdat (Some cur')) (index + 1)
    | (Raise (UnknownKey _), cur') =>
        RecoverDat.main_scans fuel (RecoverDat.set_fd rdat (Some cur')) (index + 1)
    | (Raise e, cur') => (Raise e, RecoverDat.set_fd rdat (Some cur'))
    | (OutOfFuel, cur') => (OutOfFuel, RecoverDat.set_fd rdat (Some cur'))
    end.
Proof.
  intros Hopen Hle Hvalid Hfirst. cbn [RecoverDat.main_scans].
  unfold RecoverDat.DatFileIterator_next, RecoverDat.GetScan, RecoverDat.on_fd.
  rewrite Hopen. cbn [_CheckOpen].
  pose proof (valid_at_fits _ _ _ Hvalid) as Hfit.
  assert (Hfuel : (N.to_nat (offset - cr) < RecoverDat.GetScan_fuel (RecoverDat.path rdat))%nat).
  { unfold RecoverDat.GetScan_fuel, len, headerSize in *. lia. }
  replace offset with (cr + N.of_nat (N.to_nat (offset - cr))) in Hvalid, Hfirst by lia.
  rewrite (GetScan_loop_found _ _ _ _ _ Hfuel Hvalid Hfirst).
  replace (cr + N.of_nat (N.to_nat (offset - cr))) with offset by lia.
  cbn [RecoverDat.fd RecoverDat.set_fd RecoverDat.path]. cbv zeta.
  destruct (RecoverDat.Scan_masses _ _ _ _) as [[masses | e |] cur']; reflexivity.
Qed.

Lemma main_scans_agree (contents : list byte) (post : list N) :
  forall (pre : list N) (xdat : ExtractDat.DatFile) (rdat : RecoverDat.DatFile)
         (cx cr : N) (fuelX fuelR : nat) (index : Z),
    ExtractDat.path xdat = contents -> RecoverDat.path rdat = contents ->
    ExtractDat.fd xdat = Some cx -> RecoverDat.fd rdat = Some cr ->
    ExtractDat._offsets xdat = pre ++ post ->
    (length post < fuelX)%nat -> (length post < fuelR)%nat ->
    intact contents index cr post ->
    rows_view (fst (ExtractDat.main_scans fuelX xdat (Z.of_nat (length pre))))
      = rows_view (fst (RecoverDat.main_scans fuelR rdat index)).
Proof.
  induction post as [| offset post IH];
    intros pre xdat rdat cx cr fuelX fuelR index Hxpath Hrpath Hxopen Hropen Hoff
           HfuelX HfuelR Hintact;
    (destruct fuelX as [| fuelX]; [simpl in HfuelX; lia |]);
    (destruct fuelR as [| fuelR]; [simpl in HfuelR; lia |]).
  - cbn [intact] in Hintact.
    cbn [ExtractDat.main_scans RecoverDat.main_scans].
    unfold ExtractDat.DatFileIterator_next, ExtractDat.NumScans.
    rewrite Hoff, app_nil_r.
    destruct (Z.leb_spec (Z.of_nat (length pre)) (Z.of_nat (length pre))); [| lia].
    unfold RecoverDat.DatFileIterator_next, RecoverDat.GetScan, RecoverDat.on_fd.
    rewrite Hropen. cbn [_CheckOpen]. rewrite Hrpath.
    rewrite GetScan_loop_none by (try assumption; apply GetScan_fuel_enough).
    reflexivity.
  - cbn [intact] in Hintact. destruct Hintact as (Hle & Hvalid & Hfirst & Hnext).
    assert (Hfit : header_fits contents offset = true).
    { unfold header_fits. apply N.leb_le. exact (valid_at_fits _ _ _ Hvalid). }
    rewrite (Extract_main_scans_step fuelX xdat cx offset pre post Hxopen Hoff)
      by (rewrite Hxpath; exact Hfit).
    rewrite (Recover_main_scans_step fuelR rdat cr offset index Hropen Hle)
      by (rewrite Hrpath; assumption).
    cbv zeta. rewrite Hxpath, Hrpath.
    rewrite (Recover_Scan_masses_edac contents (indexed_scan contents offset)
               (scan_at 34 contents offset offset) (Mass_fuel contents) eq_refl).
    assert (Hrec : forall cur',
               intact contents (index + 1) cur' post ->
               rows_view (fst (ExtractDat.main_scans fuelX
                                 (ExtractDat.set_fd xdat (Some cur'))
                                 (Z.of_nat (length (pre ++ [offset])))))
               = rows_view (fst (RecoverDat.main_scans fuelR
                                   (RecoverDat.set_fd rdat (Some cur')) (index + 1)))).
    { intros cur' Hin.
      apply (IH (pre ++ [offset]) _ _ cur' cur'); try assumption; try reflexivity.
      - cbn [ExtractDat._offsets ExtractDat.set_fd]. rewrite Hoff, <- app_assoc. reflexivity.
      - simpl in HfuelX. lia.
      - simpl in HfuelR. lia. }
    destruct (RecoverDat.Scan_masses contents (Mass_fuel contents)
                (scan_at 34 contents offset offset) (offset + headerSize))
      as [[masses | e |] cur'].
    + rewrite (rows_view_cons (indexed_scan contents offset, masses)),
        (rows_view_cons (scan_at 34 contents offset offset, masses)).
      exact (f_equal (fun v => match v with
                               | Ok views =>
                                   Ok (row_view (scan_at 34 contents offset offset, masses)
                                         :: views)
                               | Raise e => Raise e
                               | OutOfFuel => OutOfFuel
                               end) (Hrec cur' (proj2 Hnext))).
    + destruct e; try reflexivity; exact (Hrec cur' Hnext).
    + reflexivity.
Qed.

Lemma length_words_slice (contents : list byte) (pos n : N) :
  (length (words_of (slice contents pos n)) <= length contents)%nat.
Proof.
  pose proof (length_words_of_le _ _ (Nat.le_refl (length (slice contents pos n)))) as H.
  pose proof (length_slice contents pos n) as Hs. unfold len in Hs. lia.
Qed.

(** X15. On a file whose index agrees with what the recovery mode finds
    (the header that the recovery mode accepts next is always the one at
    the next offset of the index, none after the last, and every scan
    decoded to the end has a mass), the traversal
    of ExtractDat through the index and the traversal of RecoverDat by
    search give the same rows (the number, delta, acf, time and edac of
    every scan and its masses), skip the same scans and end with the same
    exception. *)
Theorem traversals_agree (contents : list byte)
  (xdat : ExtractDat.DatFile) (rdat : RecoverDat.DatFile)
  (Hxdat : ExtractDat.DatFile_init contents = Ok xdat)
  (Hrdat : RecoverDat.DatFile_init contents = Ok rdat)
  (Hintact : intact contents 1 356 (ExtractDat._offsets xdat)) :
  rows_view (fst (ExtractDat.main_dat xdat)) = rows_view (fst (RecoverDat.main_dat rdat)).
Proof.
  unfold ExtractDat.DatFile_init, RecoverDat.DatFile_init in *.
  rewrite Extract_read_header_spec in Hxdat. rewrite Recover_read_header_spec in Hrdat.
  destruct (header_reads contents); [| discriminate].
  injection Hxdat as <-. injection Hrdat as <-.
  unfold ExtractDat.main_dat, RecoverDat.main_dat, ExtractDat.DatFileIterator_init,
    RecoverDat.DatFileIterator_init.
  cbn [ExtractDat._offsets] in Hintact.
  apply (main_scans_agree contents
           (words_of (slice contents (hdr_word contents HDR_INDEX_OFFSET + 4)
                        (hdr_word contents HDR_INDEX_LEN * 4))) [] _ _ 0 356);
    try reflexivity.
  - cbn [ExtractDat.NumScans ExtractDat._offsets]. unfold ExtractDat.NumScans.
    cbn [ExtractDat._offsets]. lia.
  - cbn [RecoverDat.path]. pose proof (length_words_slice contents
      (hdr_word contents HDR_INDEX_OFFSET + 4) (hdr_word contents HDR_INDEX_LEN * 4)). lia.
  - exact Hintact.
Qed.

(** ** The text of a measurement *)

Lemma string_of_uint_no_minus (d : Decimal.uint) :
  startswith (NilZero.string_of_uint d) "-" = false.
Proof. destruct d; reflexivity. Qed.

Lemma startswith_minus (s : string) : startswith (String "-" s) "-" = true.
Proof. unfold startswith. cbn. destruct s; reflexivity. Qed.

Lemma str_startswith_minus (x : Z) : startswith (str x) "-" = (x <? 0)%Z.
Proof.
  destruct x as [| p | p]; unfold str; cbn [Z.to_int NilZero.string_of_int].
  - reflexivity.
  - apply string_of_uint_no_minus.
  - apply startswith_minus.
Qed.

Lemma string_of_uint_inj (d d' : Decimal.uint) :
  d <> Decimal.Nil -> d' <> Decimal.Nil ->
  NilZero.string_of_uint d = NilZero.string_of_uint d' -> d = d'.
Proof.
  intros Hd Hd' Heq.
  pose proof (NilZero.usu d Hd) as H. rewrite Heq, (NilZero.usu d' Hd') in H.
  congruence.
Qed.

Lemma to_int_nonnil (x : Z) :
  match Z.to_int x with Decimal.Pos d | Decimal.Neg d => d <> Decimal.Nil end.
Proof.
  destruct x as [| p | p]; cbn [Z.to_int];
    try discriminate; apply DecimalPos.Unsigned.to_uint_nonnil.
Qed.

Lemma str_inj (x y : Z) : str x = str y -> x = y.
Proof.
  intros Heq. apply DecimalZ.to_int_inj. unfold str in Heq.
  pose proof (to_int_nonnil x) as Hx. pose proof (to_int_nonnil y) as Hy.
  destruct (Z.to_int x) as [d | d], (Z.to_int y) as [d' | d'];
    cbn [NilZero.string_of_int] in Heq.
  - f_equal. now apply string_of_uint_inj.
  - pose proof (string_of_uint_no_minus d) as H.
    rewrite Heq, startswith_minus in H. discriminate.
  - pose proof (string_of_uint_no_minus d') as H.
    rewrite <- Heq, startswith_minus in H. discriminate.
  - injection Heq as Heq. f_equal. now apply string_of_uint_inj.
Qed.

Lemma append_star_inj (s t : string) : (s ++ "*" = t ++ "*")%string -> s = t.
Proof.
  revert t. induction s as [| c s IH]; intros [| c' t] Heq; cbn in Heq.
  - reflexivity.
  - injection Heq as _ Heq. destruct t; discriminate.
  - injection Heq as _ Heq. destruct s; discriminate.
  - injection Heq as -> Heq. f_equal. now apply IH.
Qed.

Lemma digits_no_star (d : Decimal.uint) (s : string) :
  NilEmpty.string_of_uint d <> (s ++ "*")%string.
Proof.
  revert s. induction d; intros [| c s] Heq; cbn in Heq;
    try discriminate; injection Heq as _ Heq; exact (IHd _ Heq).
Qed.

Lemma str_no_star (x : Z) (s : string) : (0 <= x)%Z -> str x <> (s ++ "*")%string.
Proof.
  intros Hx Heq. destruct x as [| p | p]; [| | lia]; unfold str in Heq;
    cbn [Z.to_int NilZero.string_of_int] in Heq.
  - destruct s as [| c [| c' s]]; discriminate.
  - pose proof (DecimalPos.Unsigned.to_uint_nonnil p) as Hnil.
    destruct (Pos.to_uint p) eqn:Hp; [congruence | ..];
      exact (digits_no_star _ s Heq).
Qed.

Lemma nonneg_no_minus (x : Z) (t : string) :
  (0 <= x)%Z -> startswith (str x ++ t) "-" = false.
Proof.
  intros Hx. destruct x as [| p | p]; [reflexivity | | lia].
  unfold str. cbn [Z.to_int NilZero.string_of_int].
  pose proof (DecimalPos.Unsigned.to_uint_nonnil p) as Hnil.
  destruct (Pos.to_uint p); [congruence | reflexivity ..].
Qed.

Lemma value_text_cases (x : Z) :
  value_text x = if (x <? 0)%Z then (str (Z.abs x) ++ "*")%string else str x.
Proof.
  unfold value_text. rewrite str_startswith_minus.
  destruct (Z.ltb_spec x 0); cbn [negb]; [| reflexivity].
  replace (Z.abs x) with (- x)%Z by lia. reflexivity.
Qed.

(** X16. The text that [main] writes for a measurement: the decimal
    digits of its absolute value, followed by a star exactly when it is
    negative.  The text never starts with a minus sign, and two different
    measurements have different texts. *)
Theorem measurement_text (x : Z) :
  value_text x = (if (x <? 0)%Z then (str (Z.abs x) ++ "*")%string else str x) /\
  startswith (value_text x) "-" = false /\
  (forall y : Z, value_text x = value_text y -> x = y).
Proof.
  split; [apply value_text_cases |]. split.
  - rewrite value_text_cases. destruct (Z.ltb_spec x 0).
    + apply nonneg_no_minus. lia.
    + rewrite str_startswith_minus. apply Z.ltb_ge. assumption.
  - intros y. rewrite !value_text_cases.
    destruct (Z.ltb_spec x 0), (Z.ltb_spec y 0); intros Heq.
    + apply append_star_inj, str_inj in Heq. lia.
    + symmetry in Heq. now apply str_no_star in Heq.
    + now apply str_no_star in Heq.
    + now apply str_inj.
Qed.

Lemma measurement_text_witness :
  value_text (-20) = "20*"%string /\ startswith (value_text (-20)) "-" = false /\
  (value_text (-20) = value_text (-20) -> (-20 = -20)%Z).
Proof.
  destruct (measurement_text (-20)) as (Htext & Hminus & Hinj).
  split; [exact Htext |]. split; [exact Hminus | exact (Hinj (-20)%Z)].
Defined.

Lemma append_empty (s : string) : (s ++ "")%string = s.
Proof. induction s as [| c s IH]; cbn; [reflexivity | now rewrite IH]. Qed.

(** X17. The text of the measurement of a DATA word: the digits of the
    magnitude shifted left by the exponent, followed by a star exactly when
    the flag is not 0 and the magnitude is not 0; a flagged 0 is written as
    a plain 0. *)
Theorem data_word_text (tmp : N) :
  value_text (data_measurement tmp)
    = (str (Z.of_N (N.shiftl (data_magnitude (word_value tmp)) (data_exp (word_value tmp))))
       ++ (if negb (data_flag (word_value tmp) =? 0)%N
              && negb (data_magnitude (word_value tmp) =? 0)%N
           then "*" else ""))%string.
Proof.
  unfold data_measurement, measurement. rewrite value_text_cases.
  set (magnitude := data_magnitude (word_value tmp)).
  set (e := data_exp (word_value tmp)).
  assert (Hzero : N.shiftl magnitude e = 0 <-> magnitude = 0).
  { rewrite N.shiftl_mul_pow2. pose proof (N.pow_nonzero 2 e). nia. }
  destruct (N.eqb_spec (data_flag (word_value tmp)) 0) as [Hflag | Hflag]; cbn [negb andb].
  - destruct (Z.ltb_spec (Z.of_N (N.shiftl magnitude e)) 0); [lia |].
    now rewrite append_empty.
  - destruct (N.eqb_spec magnitude 0) as [Hmag | Hmag]; cbn [negb].
    + apply Hzero in Hmag. rewrite Hmag. reflexivity.
    + destruct (Z.ltb_spec (- Z.of_N (N.shiftl magnitude e)) 0) as [Hneg | Hneg].
      * f_equal. f_equal. lia.
      * exfalso. apply Hmag, Hzero. lia.
Qed.

(** ** The further theorems on the test files *)

(** The mass of the first scan of [file_two_scans]: its only DATA word is
    a pulse word with the measurement -20. *)
Lemma decoded_measurements_in_order_witness :
  RecoverDat.Mass_init file_two_scans (indexed_scan file_two_scans 364) 552
    = (Ok (mkMass 552 (Some (Quot 262144 262144)) None (Some 5) (Some 9)
                  [] [(-20)%Z] [] 16), 568) /\
  [(-20)%Z] = stream_measurements DATA_PULSE (mass_words file_two_scans 552 568) /\
  [] = stream_measurements DATA_ANALOG (mass_words file_two_scans 552 568) /\
  [] = stream_measurements DATA_FARADAY (mass_words file_two_scans 552 568).
Proof.
  apply (decoded_measurements_in_order file_two_scans (indexed_scan file_two_scans 364)
           552 0 568
           (mkMass 552 (Some (Quot 262144 262144)) None (Some 5) (Some 9)
                   [] [(-20)%Z] [] 16)).
  vm_compute. reflexivity.
Defined.

(** The mass of [stream_overwrite]: the second magnet mass word and the
    second accelerating voltage word give the values, and there is no
    channel time word. *)
Lemma decoded_scalar_fields_witness :
  Some 9 = Some (word_value (word_at stream_overwrite (20 - 4))) /\
  Some (Quot 2 262144)
    = option_map magnet_float (last_value KEY_MASS None (mass_words stream_overwrite 0 20)) /\
  Some (Quot 7000 524288)
    = option_map (volt_float (edac bare_scan))
                 (last_value KEY_VOLT None (mass_words stream_overwrite 0 20)) /\
  None = last_value KEY_TIME None (mass_words stream_overwrite 0 20) /\
  (length (filter (is_key KEY_TIME) (mass_words stream_overwrite 0 20)) <= 1)%nat.
Proof.
  apply (decoded_scalar_fields stream_overwrite bare_scan 0 0 20
           (mkMass 0 (Some (Quot 2 262144)) (Some (Quot 7000 524288)) None (Some 9)
                   [] [] [] 20)).
  vm_compute. reflexivity.
Defined.

(** The mass of the second scan of [file_two_scans]: two words, from byte
    760 to byte 768. *)
Lemma decoded_mass_extent_witness :
  760 = 760 /\ 768 = 760 + 8 /\ 4 <= 8 /\ 8 mod 4 = 0 /\
  768 <= len file_two_scans /\
  word_key (word_at file_two_scans (768 - 4)) = KEY_EOM /\
  N.of_nat (length (mass_words file_two_scans 760 768)) = 8 / 4 - 1 /\
  Forall (fun tmp => word_key tmp <> KEY_EOM /\ word_key tmp <> KEY_EOS)
         (mass_words file_two_scans 760 768).
Proof.
  apply (decoded_mass_extent file_two_scans (indexed_scan file_two_scans 572) 760 0 768
           (mkMass 760 (Some (Quot 3 262144)) None None (Some 9) [] [] [] 8)).
  vm_compute. reflexivity.
Defined.

(** The word 0x11120005: key 1 and value 0x1120005, which is flag 1, data
    type 1, exponent 2 and magnitude 5. *)
Lemma word_fields_partition_witness :
  word_key 0x11120005 = 1 /\ word_value 0x11120005 = 0x1120005 /\
  0x11120005 = word_key 0x11120005 * 2 ^ 28 + word_value 0x11120005 /\
  word_value 0x11120005 =
    data_flag (word_value 0x11120005) * 2 ^ 24
    + data_dataType (word_value 0x11120005) * 2 ^ 20
    + data_exp (word_value 0x11120005) * 2 ^ 16 + data_magnitude (word_value 0x11120005).
Proof.
  destruct (word_fields_partition 0x11120005) as (_ & _ & Hword & _ & _ & _ & _ & Hvalue).
  - reflexivity.
  - split; [reflexivity |]. split; [reflexivity |].
    split; [exact Hword | exact Hvalue].
Defined.

(** A mass with a B-scan word and a word of the key 0xB. *)
Lemma inert_words_ignored_witness :
  filter (fun tmp => negb (inert tmp))
         [word KEY_BSCAN 1; word KEY_MASS 3; word KEY_B 2; word KEY_EOM 9]
    = [word KEY_MASS 3; word KEY_EOM 9] /\
  match fst (RecoverDat.Mass_init
               (pack [word KEY_BSCAN 1; word KEY_MASS 3; word KEY_B 2; word KEY_EOM 9])
               bare_scan 0),
        fst (RecoverDat.Mass_init
               (pack (filter (fun tmp => negb (inert tmp))
                        [word KEY_BSCAN 1; word KEY_MASS 3; word KEY_B 2; word KEY_EOM 9]))
               bare_scan 0)
  with
  | Ok m, Ok m' => m' = set_size m (size m')
  | Raise e, Raise e' => e = e'
  | _, _ => False
  end.
Proof.
  split; [vm_compute; reflexivity |].
  apply (inert_words_ignored
           [word KEY_BSCAN 1; word KEY_MASS 3; word KEY_B 2; word KEY_EOM 9] bare_scan).
  repeat constructor.
Defined.

(** The masses of the first scan of [file_two_scans]: one mass, from byte
    552 to byte 568, and the end-of-scan word right after it. *)
Lemma scan_masses_tile_witness :
  exists stop : N,
    contiguous 552 [mkMass 552 (Some (Quot 262144 262144)) None (Some 5) (Some 9)
                           [] [(-20)%Z] [] 16] stop /\
    RecoverDat.Mass_init file_two_scans (indexed_scan file_two_scans 364) stop
      = (Raise EOS, 572) /\
    stop + 4 <= 572 /\ 572 <= len file_two_scans /\
    word_key (word_at file_two_scans (572 - 4)) = KEY_EOS /\
    Forall (fun tmp => word_key tmp <> KEY_EOM /\ word_key tmp <> KEY_EOS)
           (mass_words file_two_scans stop 572) /\
    Forall (fun m => fst (RecoverDat.Mass_init file_two_scans
                            (indexed_scan file_two_scans 364) (mass_offset m)) = Ok m)
           [mkMass 552 (Some (Quot 262144 262144)) None (Some 5) (Some 9)
                   [] [(-20)%Z] [] 16].
Proof.
  apply (scan_masses_tile file_two_scans (indexed_scan file_two_scans 364) 3 552 0 572).
  vm_compute. reflexivity.
Defined.

(** The header of [file_two_scans]. *)
Lemma dat_header_fields_witness :
  exists (dat : ExtractDat.DatFile) (rdat : RecoverDat.DatFile),
    ExtractDat.DatFile_init file_two_scans = Ok dat /\
    RecoverDat.DatFile_init file_two_scans = Ok rdat /\
    ExtractDat.fd dat = None /\ RecoverDat.fd rdat = None /\
    ExtractDat.fd (ExtractDat.Open dat) = Some 0 /\
    RecoverDat.fd (RecoverDat.Open rdat) = Some 356 /\
    ExtractDat.timestamp dat = hdr_word file_two_scans 40 /\
    ExtractDat._indexLen dat = hdr_word file_two_scans 39 /\
    ExtractDat._indexOffset dat = hdr_word file_two_scans 33 /\
    RecoverDat.timestamp rdat = ExtractDat.timestamp dat /\
    RecoverDat._offsets rdat = ExtractDat._offsets dat /\
    length (ExtractDat._offsets dat) = N.to_nat (hdr_word file_two_scans 39) /\
    forall i : nat,
      (i < length (ExtractDat._offsets dat))%nat ->
      nth i (ExtractDat._offsets dat) 0
        = word_at file_two_scans (hdr_word file_two_scans 33 + 4 + 4 * N.of_nat i).
Proof.
  apply (dat_header_fields file_two_scans). vm_compute. reflexivity.
Defined.

(** [file_two_scans] has two scans: the indices 2 and -3 are out of
    range. *)
Lemma GetScan_index_error_witness :
  fst (ExtractDat.GetScan (ExtractDat.Open (the_dat file_two_scans)) 2) = Raise IndexError /\
  fst (ExtractDat.GetScan (ExtractDat.Open (the_dat file_two_scans)) (-3)) = Raise IndexError /\
  snd (ExtractDat.GetScan (ExtractDat.Open (the_dat file_two_scans)) 2)
    = ExtractDat.Open (the_dat file_two_scans).
Proof.
  destruct (GetScan_index_error (ExtractDat.Open (the_dat file_two_scans)) 0 2 eq_refl)
    as [Hiff Hsame].
  destruct (GetScan_index_error (ExtractDat.Open (the_dat file_two_scans)) 0 (-3) eq_refl)
    as [Hiff' _].
  assert (Hhigh : fst (ExtractDat.GetScan (ExtractDat.Open (the_dat file_two_scans)) 2)
                  = Raise IndexError).
  { apply Hiff. left. vm_compute. discriminate. }
  split; [exact Hhigh |]. split.
  - apply Hiff'. right. vm_compute. reflexivity.
  - exact (Hsame Hhigh).
Defined.

(** The DatFile of [file_two_scans] before [Open]. *)
Lemma closed_file_not_open_witness :
  ExtractDat.GetScan (the_dat file_two_scans) 0 = (Raise NotOpen, the_dat file_two_scans) /\
  RecoverDat.GetScan (the_recover_dat file_two_scans) 1
    = (Raise NotOpen, the_recover_dat file_two_scans) /\
  ExtractDat.Close (ExtractDat.Open (the_dat file_two_scans)) = the_dat file_two_scans.
Proof.
  destruct (closed_file_not_open file_two_scans (the_dat file_two_scans)
              (the_recover_dat file_two_scans))
    as (Hclose & _ & Hget & Hrget & _).
  - vm_compute. reflexivity.
  - vm_compute. reflexivity.
  - split; [apply Hget |]. split; [apply Hrget | exact Hclose].
Defined.

(** The first scan of [file_two_scans], searched from the end of the file
    header. *)
Lemma recovered_scan_is_first_witness :
  match RecoverDat.GetScan (RecoverDat.Open (the_recover_dat file_two_scans)) 1 with
  | (Ok (Some scan), dat') =>
      356 <= scan_offset scan /\
      scan_offset scan + 188 <= len file_two_scans /\
      (header_word file_two_scans (scan_offset scan) 3,
       header_word file_two_scans (scan_offset scan) 4,
       header_word file_two_scans (scan_offset scan) 5) = (0xD, 0xE, 0xF) /\
      Z.of_N (number scan) = 1%Z /\
      number scan = header_word file_two_scans (scan_offset scan) 9 /\
      (forall q, 356 <= q < scan_offset scan -> valid_at file_two_scans q 1 = false) /\
      dat' = RecoverDat.set_fd (RecoverDat.Open (the_recover_dat file_two_scans))
                               (Some (scan_offset scan + 188))
  | (Ok None, dat') =>
      (forall q, 356 <= q -> valid_at file_two_scans q 1 = false) /\
      dat' = RecoverDat.set_fd (RecoverDat.Open (the_recover_dat file_two_scans))
                               (Some (N.max 356 (len file_two_scans)))
  | (Raise _, _) => False
  | (OutOfFuel, _) => False
  end.
Proof.
  apply (recovered_scan_is_first (RecoverDat.Open (the_recover_dat file_two_scans)) 356 1).
  reflexivity.
Defined.

(** The rows of [file_two_scans] in the recovery mode. *)
Lemma recovery_rows_ascend_witness :
  exists rows dat',
    RecoverDat.main_dat (the_recover_dat file_two_scans) = (Ok rows, dat') /\
    ascending file_two_scans 1 356 rows.
Proof.
  destruct (recovery_rows_ascend (the_recover_dat file_two_scans)) as [_ Hasc].
  destruct (RecoverDat.main_dat (the_recover_dat file_two_scans))
    as [[rows | e |] dat'] eqn:Hrun.
  - exists rows, dat'. split; [reflexivity | exact (Hasc rows dat' eq_refl)].
  - vm_compute in Hrun. discriminate.
  - vm_compute in Hrun. discriminate.
Defined.

Lemma intact_file_two_scans : intact file_two_scans 1 356 [364; 572].
Proof.
  cbn [intact]. split; [lia |]. split; [vm_compute; reflexivity |]. split.
  { intros q Hq.
    assert (Hcases : q = 356 \/ q = 357 \/ q = 358 \/ q = 359 \/
                     q = 360 \/ q = 361 \/ q = 362 \/ q = 363) by lia.
    repeat (destruct Hcases as [-> | Hcases]; [vm_compute; reflexivity |]).
    subst q. vm_compute. reflexivity. }
  replace (RecoverDat.Scan_masses file_two_scans (Mass_fuel file_two_scans)
             (scan_at 34 file_two_scans 364 364) (364 + headerSize))
    with (@Ok (list Mass)
              [mkMass 552 (Some (Quot 262144 262144)) None (Some 5) (Some 9)
                      [] [(-20)%Z] [] 16], 572)
    by (vm_compute; reflexivity).
  split; [discriminate |].
  split; [lia |]. split; [vm_compute; reflexivity |]. split; [intros q Hq; lia |].
  replace (RecoverDat.Scan_masses file_two_scans (Mass_fuel file_two_scans)
             (scan_at 34 file_two_scans 572 572) (572 + headerSize))
    with (@Ok (list Mass)
              [mkMass 760 (Some (Quot 3 262144)) None None (Some 9) [] [] [] 8], 772)
    by (vm_compute; reflexivity).
  split; [discriminate |].
  intros q Hq.
  destruct (valid_at file_two_scans q (1 + 1 + 1)) eqn:Hvalid; [| reflexivity].
  apply valid_at_fits in Hvalid.
  replace (len file_two_scans) with 772 in Hvalid by (vm_compute; reflexivity).
  unfold headerSize in Hvalid. lia.
Qed.

(** The index of [file_two_scans] is what the recovery mode finds: both
    traversals give the same two rows. *)
Lemma traversals_agree_witness :
  rows_view (fst (ExtractDat.main_dat (the_dat file_two_scans)))
    = rows_view (fst (RecoverDat.main_dat (the_recover_dat file_two_scans))).
Proof.
  apply (traversals_agree file_two_scans).
  - vm_compute. reflexivity.
  - vm_compute. reflexivity.
  - change (ExtractDat._offsets (the_dat file_two_scans)) with [364; 572].
    exact intact_file_two_scans.
Defined.
